(** * Scaling and dictionary parsers of xpra ([xpra/util/parsing.py])

    A shallow embedding of [parse_scaling], [parse_scaling_value] and
    [parse_simple_dict], together with the parts of the Python runtime they
    rely on: [int()] and [float()] of a string, true division, mixed
    int/float comparisons, [str.split], [str.replace] and [str.find].

    Strings are Rocq [string]s whose characters are read as the code points
    U+0000..U+00FF.  Python floats are IEEE binary64 values, represented by
    the Standard Library's [spec_float] with precision 53 and [emax] 1024,
    rounded to nearest-even as CPython does. *)

From Stdlib Require Import ZArith Bool List Ascii String Lia.
From Stdlib Require Import Floats.SpecFloat Sorting.Sorted.
Import ListNotations.
Open Scope Z_scope.

(** ** Python exceptions and a small log-and-exception monad

    A computation reads and extends the list of lines passed to
    [log.warn]; it either returns a value or raises an exception. *)

Inductive exn :=
| ValueError
| IndexError
| ZeroDivisionError
| OverflowError
| AssertionError.

Definition M (A : Type) : Type := list string -> (exn + A) * list string.

Definition ret {A} (a : A) : M A := fun w => (inr a, w).

Definition bind {A B} (m : M A) (f : A -> M B) : M B :=
  fun w => match m w with
           | (inr a, w') => f a w'
           | (inl e, w') => (inl e, w')
           end.

Definition raise {A} (e : exn) : M A := fun w => (inl e, w).

Definition warn (msg : string) : M unit := fun w => (inr tt, w ++ [msg]).

(** A pure step that may raise, used inside [M]. *)
Definition lift {A} (r : exn + A) : M A := fun w => (r, w).

(** [try: ... except <caught>: <handler>] *)
Definition try_except {A} (m : M A) (caught : exn -> bool) (h : exn -> M A) : M A :=
  fun w => match m w with
           | (inl e, w') => if caught e then h e w' else (inl e, w')
           | r => r
           end.

(** [try: return <x> except <caught>: pass] followed by the rest [k] of
    the function body. *)
Definition try_return {A} (x : exn + A) (caught : exn -> bool) (k : M A) : M A :=
  match x with
  | inr a => ret a
  | inl e => if caught e then k else raise e
  end.

Definition run {A} (m : M A) : (exn + A) * list string := m [].

Notation "x <- m ;; k" := (bind m (fun x => k))
  (at level 61, m at next level, right associativity).
Notation "m ;;; k" := (bind m (fun _ => k))
  (at level 61, right associativity).

(** Results of the pure steps. *)
Definition rbind {A B} (r : exn + A) (f : A -> exn + B) : exn + B :=
  match r with inl e => inl e | inr a => f a end.

Definition catch_any (_ : exn) : bool := true.
Definition catch_value_error (e : exn) : bool :=
  match e with ValueError => true | _ => false end.
Definition catch_value_zero (e : exn) : bool :=
  match e with ValueError | ZeroDivisionError => true | _ => false end.

(** ** Strings *)

Definition chr (n : nat) : ascii := ascii_of_nat n.
Definition ord (c : ascii) : nat := nat_of_ascii c.

Definition is_digit (c : ascii) : bool := (48 <=? ord c)%nat && (ord c <=? 57)%nat.

(** Characters stripped by [int()] and [float()]: the ASCII white space
    of [Py_ISSPACE], and U+0085 and U+00A0, which CPython first turns into
    a space. *)
Definition is_space (c : ascii) : bool :=
  ((9 <=? ord c)%nat && (ord c <=? 13)%nat) || (ord c =? 32)%nat
  || (ord c =? 133)%nat || (ord c =? 160)%nat.

Definition digit_val (c : ascii) : Z := Z.of_nat (ord c) - 48.

Fixpoint digits_value_aux (acc : Z) (l : list ascii) : Z :=
  match l with
  | [] => acc
  | c :: l' => digits_value_aux (10 * acc + digit_val c) l'
  end.
Definition digits_value (l : list ascii) : Z := digits_value_aux 0 l.

Fixpoint drop_while (p : ascii -> bool) (l : list ascii) : list ascii :=
  match l with
  | c :: l' => if p c then drop_while p l' else l
  | [] => []
  end.

Definition strip (l : list ascii) : list ascii :=
  rev (drop_while is_space (rev (drop_while is_space l))).

(** [str.endswith(c)] and [str.startswith(p)]. *)
Definition endswith (c : ascii) (s : string) : bool :=
  match rev (list_ascii_of_string s) with
  | d :: _ => Ascii.eqb c d
  | [] => false
  end.
Definition startswith (p s : string) : bool := String.prefix p s.

(** [s[:-1]], [s[:1]] and [s[n:]]. *)
Definition drop_last (s : string) : string :=
  string_of_list_ascii (rev (tl (rev (list_ascii_of_string s)))).
Definition first_char (s : string) : string := String.substring 0 1 s.
Definition slice_from (n : nat) (s : string) : string :=
  String.substring n (String.length s - n) s.

(** [s.replace(o, n)] for one-character [o] and [n], the only form the
    parsers use. *)
Fixpoint replace_char (o n : ascii) (s : string) : string :=
  match s with
  | EmptyString => EmptyString
  | String c s' => String (if Ascii.eqb c o then n else c) (replace_char o n s')
  end.

(** [s.find(c)] for a one-character [c]: its first index, or -1. *)
Fixpoint find_char (c : ascii) (s : string) : Z :=
  match s with
  | EmptyString => -1
  | String d s' =>
      if Ascii.eqb c d then 0
      else let i := find_char c s' in if i <? 0 then -1 else i + 1
  end.

(** [s.split(sep, maxsplit)] with a separator of any length; [None] is
    the default maxsplit (no limit).  An empty separator raises
    [ValueError: empty separator]. *)
Fixpoint strip_prefix (p s : string) : option string :=
  match p, s with
  | EmptyString, _ => Some s
  | String c p', String d s' => if Ascii.eqb c d then strip_prefix p' s' else None
  | _, _ => None
  end.

Fixpoint split_go (fuel : nat) (sep : string) (maxsplit : option nat)
    (acc : list ascii) (s : string) : list string :=
  let cur := string_of_list_ascii (rev acc) in
  match fuel with
  | O => [(cur ++ s)%string]
  | S fuel' =>
      match maxsplit with
      | Some O => [(cur ++ s)%string]
      | _ =>
          match strip_prefix sep s with
          | Some rest => cur :: split_go fuel' sep (option_map pred maxsplit) [] rest
          | None =>
              match s with
              | EmptyString => [cur]
              | String c s' => split_go fuel' sep maxsplit (c :: acc) s'
              end
          end
      end
  end.

Definition py_split (sep : string) (maxsplit : option nat) (s : string)
    : exn + list string :=
  match sep with
  | EmptyString => inl ValueError
  | _ => inr (split_go (S (String.length s)) sep maxsplit [] s)
  end.

(** [lst[i]] *)
Definition py_index {A} (l : list A) (i : nat) : exn + A :=
  match nth_error l i with Some a => inr a | None => inl IndexError end.

Fixpoint string_in (s : string) (l : list string) : bool :=
  match l with
  | [] => false
  | t :: l' => String.eqb s t || string_in s l'
  end.

(** ** Python numbers

    A Python number is an [int] (a [Z]) or a [float] (a binary64 value). *)

Definition prec : Z := 53.
Definition emax : Z := 1024.

Definition float := spec_float.

(** The binary64 value nearest to [num / den] (ties to even), with sign
    [neg]; [num] and [den] are positive. *)
Definition round_ratio (neg : bool) (num den : Z) : float :=
  let '(q, e, l) := SFdiv_core_binary prec emax num 0 den 0 in
  binary_round_aux prec emax neg q e l.

Definition is_inf (f : float) : bool :=
  match f with S754_infinity _ => true | _ => false end.
Definition is_zero (f : float) : bool :=
  match f with S754_zero _ => true | _ => false end.

(** [float(z)] for an int [z], before the overflow check. *)
Definition float_of_Z (z : Z) : float :=
  if z =? 0 then S754_zero false else round_ratio (z <? 0) (Z.abs z) 1.

(** The float nearest to the decimal [m * 10^e] with sign [neg]. *)
Definition decimal_to_float (neg : bool) (m e : Z) : float :=
  if m =? 0 then S754_zero neg
  else if 0 <=? e then round_ratio neg (m * 10 ^ e) 1
  else round_ratio neg m (10 ^ (- e)).

Inductive pynum :=
| PInt (z : Z)
| PFloat (f : float).

(** Float literals of the source. *)
Definition f1_0 : float := decimal_to_float false 1 0.
Definition f1_25 : float := decimal_to_float false 125 (-2).
Definition f1_5 : float := decimal_to_float false 15 (-1).
Definition f0_1 : float := decimal_to_float false 1 (-1).
Definition f5_0 : float := decimal_to_float false 5 0.

(** ** [int(s)] for a string [s]

    Surrounding white space, an optional sign, and decimal digits with
    single underscores between digits; more than 4300 digits is refused
    (CPython's default [sys.int_info.default_max_str_digits]). *)

(** CPython's underscore rule: an underscore must follow a digit and be
    followed by a digit ([_Py_string_to_number_with_underscores]). *)
Fixpoint underscores_ok (prev : ascii) (l : list ascii) : bool :=
  match l with
  | [] => negb (Ascii.eqb prev "_")
  | c :: l' =>
      (if Ascii.eqb c "_" then is_digit prev
       else if Ascii.eqb prev "_" then is_digit c else true)
      && underscores_ok c l'
  end.

Definition remove_underscores (l : list ascii) : list ascii :=
  filter (fun c => negb (Ascii.eqb c "_")) l.

Definition take_sign (l : list ascii) : bool * list ascii :=
  match l with
  | "-"%char :: l' => (true, l')
  | "+"%char :: l' => (false, l')
  | _ => (false, l)
  end.

Definition max_str_digits : nat := 4300.

Definition py_int (s : string) : exn + Z :=
  let '(neg, body) := take_sign (strip (list_ascii_of_string s)) in
  if (negb (forallb (fun c => is_digit c || Ascii.eqb c "_") body))
     || negb (underscores_ok "000"%char body)
     || (match body with [] => true | _ => false end)
  then inl ValueError
  else
    let ds := remove_underscores body in
    if (max_str_digits <? List.length ds)%nat then inl ValueError
    else let n := digits_value ds in inr (if neg then - n else n).

(** ** [float(s)] for a string [s]

    Underscores are checked and removed first (when there is one), then
    surrounding white space is stripped; what remains is an optional sign
    followed by [inf], [infinity] or [nan] in any case, or by a decimal
    [digits[.digits]] or [.digits] with an optional exponent
    [e[sign]digits].  The decimal is rounded to the nearest float. *)

Fixpoint take_digits (l : list ascii) : list ascii * list ascii :=
  match l with
  | c :: l' =>
      if is_digit c then let '(ds, r) := take_digits l' in (c :: ds, r)
      else ([], l)
  | [] => ([], [])
  end.

Definition lower (c : ascii) : ascii :=
  if ((65 <=? ord c) && (ord c <=? 90))%nat then chr (ord c + 32) else c.

(** The decimal [m * 10^e] spelled by [l], if [l] is one. *)
Definition parse_decimal (l : list ascii) : option (Z * Z) :=
  let '(d1, r1) := take_digits l in
  let '(d2, r2) :=
    match r1 with
    | "."%char :: r => take_digits r
    | _ => ([], r1)
    end in
  let mant := d1 ++ d2 in
  let exp :=
    match r2 with
    | [] => Some 0
    | c :: r =>
        if Ascii.eqb (lower c) "e" then
          let '(eneg, r') := take_sign r in
          let '(d3, r3) := take_digits r' in
          match d3, r3 with
          | _ :: _, [] => Some (if eneg then - digits_value d3 else digits_value d3)
          | _, _ => None
          end
        else None
    end in
  match mant, exp with
  | _ :: _, Some e => Some (digits_value mant, e - Z.of_nat (List.length d2))
  | _, _ => None
  end.

Definition py_float (s : string) : exn + float :=
  let l0 := list_ascii_of_string s in
  let l1 :=
    if existsb (fun c => Ascii.eqb c "_") l0 then
      if underscores_ok "000"%char l0 then Some (remove_underscores l0) else None
    else Some l0 in
  match l1 with
  | None => inl ValueError
  | Some l1 =>
      let '(neg, body) := take_sign (strip l1) in
      let w := string_of_list_ascii (map lower body) in
      if String.eqb w "inf" || String.eqb w "infinity" then inr (S754_infinity neg)
      else if String.eqb w "nan" then inr S754_nan
      else match parse_decimal body with
           | Some (m, e) => inr (decimal_to_float neg m e)
           | None => inl ValueError
           end
  end.

(** ** Arithmetic and comparisons on Python numbers *)

(** [float(z)] of an int, which raises [OverflowError] when out of range. *)
Definition to_float (n : pynum) : exn + float :=
  match n with
  | PFloat f => inr f
  | PInt z => let f := float_of_Z z in if is_inf f then inl OverflowError else inr f
  end.

(** [a / b]: int by int is the correctly rounded quotient
    ([long_true_divide]); otherwise both operands are converted to float
    and divided ([float_div]). *)
Definition py_truediv (a b : pynum) : exn + pynum :=
  match a, b with
  | PInt x, PInt y =>
      if y =? 0 then inl ZeroDivisionError
      else
        let neg := xorb (x <? 0) (y <? 0) in
        let f := if x =? 0 then S754_zero neg else round_ratio neg (Z.abs x) (Z.abs y) in
        if is_inf f then inl OverflowError else inr (PFloat f)
  | _, _ =>
      rbind (to_float a) (fun fa =>
      rbind (to_float b) (fun fb =>
      if is_zero fb then inl ZeroDivisionError else inr (PFloat (SFdiv prec emax fa fb))))
  end.

(** Exact values, for comparisons across int and float. *)
Inductive xval :=
| XNan
| XInf (neg : bool)
| XFin (m : Z) (e : Z).   (* m * 2^e *)

Definition xval_of (n : pynum) : xval :=
  match n with
  | PInt z => XFin z 0
  | PFloat (S754_zero _) => XFin 0 0
  | PFloat (S754_infinity s) => XInf s
  | PFloat S754_nan => XNan
  | PFloat (S754_finite s m e) => XFin (if s then Z.neg m else Z.pos m) e
  end.

Definition xcompare (a b : xval) : option comparison :=
  match a, b with
  | XNan, _ | _, XNan => None
  | XInf s1, XInf s2 =>
      Some (match s1, s2 with
            | true, false => Lt | false, true => Gt | _, _ => Eq end)
  | XInf s, XFin _ _ => Some (if s then Lt else Gt)
  | XFin _ _, XInf s => Some (if s then Gt else Lt)
  | XFin m1 e1, XFin m2 e2 =>
      let e := Z.min e1 e2 in
      Some (Z.compare (Z.shiftl m1 (e1 - e)) (Z.shiftl m2 (e2 - e)))
  end.

(** [a < b] and [a > b]; every comparison with a NaN is false. *)
Definition py_lt (a b : pynum) : bool :=
  match xcompare (xval_of a) (xval_of b) with Some Lt => true | _ => false end.
Definition py_gt (a b : pynum) : bool := py_lt b a.

(** [bool(n)]: false exactly on [0], [0.0] and [-0.0]. *)
Definition py_truthy (n : pynum) : bool :=
  match n with
  | PInt z => negb (z =? 0)
  | PFloat f => negb (is_zero f)
  end.

(** ** [parse_scaling] *)

(** Modelled from the spec: [TRUE_OPTIONS] of [xpra.scripts.config], which
    is not among the sources; the spec names the truthy tokens ["yes"],
    ["true"], ["1"] and ["on"].  Only its string members matter, since
    [desktop_scaling] is a string. *)
Definition TRUE_OPTIONS : list string := ["yes"; "true"; "1"; "on"]%string.

Definition MIN_SCALING : pynum := PFloat f0_1.
Definition MAX_SCALING : pynum := PInt 8.

(** One row [(max_width, max_height, scale_x, scale_y)] of the auto table. *)
Definition limit : Type := (Z * Z * pynum * pynum)%type.

Definition default_limits : list limit :=
  [ (3960, 2160, PFloat f1_0, PFloat f1_0);
    (7680, 4320, PFloat f1_25, PFloat f1_25);
    (8192, 8192, PFloat f1_5, PFloat f1_5);
    (16384, 16384, PFloat (SFdiv prec emax f5_0 (float_of_Z 3)),
                   PFloat (SFdiv prec emax f5_0 (float_of_Z 3)));
    (32768, 32768, PInt 2, PInt 2);
    (65536, 65536, PInt 4, PInt 4) ].

Definition py_assert (b : bool) : exn + unit :=
  if b then inr tt else inl AssertionError.

(** The body of the [try] block for one entry [l] of an [auto:] table. *)
Definition parse_limit (l : string) : exn + limit :=
  rbind (py_split ":" None l) (fun ldef =>
  rbind (py_assert (List.length ldef =? 2)%nat) (fun _ =>
  rbind (py_index ldef 0) (fun ldef0 =>
  rbind (py_split "x" None ldef0) (fun dims =>
  rbind (py_assert (List.length dims =? 2)%nat) (fun _ =>
  rbind (rbind (py_index dims 0) py_int) (fun x =>
  rbind (rbind (py_index dims 1) py_int) (fun y =>
  rbind (py_index ldef 1) (fun ldef1 =>
  let scaleparts := replace_char "*" "x" ldef1 in
  let scaleparts := replace_char "/" "x" scaleparts in
  rbind (py_split "x" None scaleparts) (fun scaleparts =>
  rbind (py_assert (List.length scaleparts <=? 2)%nat) (fun _ =>
  if (List.length scaleparts =? 1)%nat then
    rbind (rbind (py_index scaleparts 0) py_float) (fun sxy =>
    inr (x, y, PFloat sxy, PFloat sxy))
  else
    rbind (rbind (py_index scaleparts 0) py_float) (fun sx =>
    rbind (rbind (py_index scaleparts 1) py_float) (fun sy =>
    inr (x, y, PFloat sx, PFloat sy))))))))))))).

(** The [for l in limp] loop: failing entries are skipped with a warning. *)
Fixpoint parse_limits_loop (limp : list string) (limits : list limit) : M (list limit) :=
  match limp with
  | [] => ret limits
  | l :: limp' =>
      limits' <- try_except
                   (r <- lift (parse_limit l) ;; ret (limits ++ [r]))
                   catch_any
                   (fun _ => warn ("Warning: failed to parse limit string '" ++ l ++ "':") ;;;
                             warn " <exception>" ;;;
                             warn " should use the format WIDTHxHEIGTH:SCALINGVALUE" ;;;
                             ret limits) ;;
      parse_limits_loop limp' limits'
  end.

(** The table used in auto mode, for a [desktop_scaling] starting with
    ["auto"]. *)
Definition auto_limits (desktop_scaling : string) : M (list limit) :=
  if startswith "auto:" desktop_scaling then
    let limstr := slice_from 5 desktop_scaling in
    limp <- lift (py_split "," None limstr) ;;
    parse_limits_loop limp []
  else if negb (String.eqb desktop_scaling "auto") then
    warn ("Warning: invalid 'auto' scaling value " ++ desktop_scaling) ;;;
    ret default_limits
  else ret default_limits.

(** The [for mx, my, tsx, tsy in limits] loop. *)
Fixpoint match_limits (root_w root_h : Z) (limits : list limit) : pynum * pynum :=
  match limits with
  | [] => (PFloat f1_0, PFloat f1_0)
  | (mx, my, tsx, tsy) :: limits' =>
      if root_w * root_h <=? mx * my then (tsx, tsy)
      else match_limits root_w root_h limits'
  end.

(** The nested [parse_item]. *)
Definition parse_item (v0 : string) : M pynum :=
  let div : Z := if endswith "%" v0 then 100 else 1 in
  let v := if endswith "%" v0 then drop_last v0 else v0 in
  let ratio :=
    let pair := py_split "/" (Some 1%nat) (replace_char ":" "/" v) in
    try_return
      (rbind pair (fun pair =>
       rbind (rbind (py_index pair 0) py_float) (fun a =>
       rbind (rbind (py_index pair 1) py_float) (fun b =>
       py_truediv (PFloat a) (PFloat b)))))
      catch_value_zero
      (warn ("Warning: failed to parse scaling value '" ++ v ++ "'") ;;;
       ret (PInt 0)) in
  let as_float :=
    try_return
      (rbind (py_float v) (fun f => py_truediv (PFloat f) (PInt div)))
      catch_value_zero ratio in
  if div =? 1 then
    try_return (rbind (py_int v) (fun n => inr (PInt n))) catch_value_error as_float
  else as_float.

(** The fixed-value part of [parse_scaling], after the truthy and auto
    branches. *)
Definition parse_fixed (desktop_scaling : string) (root_w root_h : Z)
    (min_scaling max_scaling : pynum) : M (pynum * pynum) :=
  if (0 <? find_char "x" desktop_scaling) && (0 <? find_char ":" desktop_scaling) then
    warn "Warning: found both 'x' and ':' in desktop-scaling fixed value" ;;;
    warn " maybe the 'auto:' prefix is missing?" ;;;
    ret (PInt 1, PInt 1)
  else
    values <- lift (py_split "x" (Some 1%nat) (replace_char "," "x" desktop_scaling)) ;;
    v0 <- lift (py_index values 0) ;;
    sx <- parse_item v0 ;;
    if negb (py_truthy sx) then ret (PInt 1, PInt 1)
    else
      sy <- (if (List.length values =? 1)%nat then ret sx
             else v1 <- lift (py_index values 1) ;; parse_item v1) ;;
      (* [if sy is None: return 1, 1]: [parse_item] always returns a
         number, so this test never fires. *)
      sxy <- (if py_gt sx max_scaling || py_gt sy max_scaling then
                sx' <- lift (py_truediv sx (PInt root_w)) ;;
                sy' <- lift (py_truediv sy (PInt root_h)) ;;
                ret (sx', sy')
              else ret (sx, sy)) ;;
      let '(sx, sy) := sxy in
      if py_lt sx min_scaling || py_lt sy min_scaling
         || py_gt sx max_scaling || py_gt sy max_scaling then
        warn "Warning: scaling values are out of range" ;;;
        ret (PInt 1, PInt 1)
      else ret (sx, sy).

Definition parse_scaling (desktop_scaling : string) (root_w root_h : Z)
    (min_scaling max_scaling : pynum) : M (pynum * pynum) :=
  if string_in desktop_scaling TRUE_OPTIONS then ret (PInt 1, PInt 1)
  else if startswith "auto" desktop_scaling then
    limits <- auto_limits desktop_scaling ;;
    ret (match_limits root_w root_h limits)
  else parse_fixed desktop_scaling root_w root_h min_scaling max_scaling.

(** ** [parse_scaling_value] *)

(** [float.as_integer_ratio()]: the fraction in lowest terms with a
    positive denominator; [OverflowError] on infinities, [ValueError] on
    NaN. *)
Definition as_integer_ratio (f : float) : exn + (Z * Z) :=
  match f with
  | S754_zero _ => inr (0, 1)
  | S754_infinity _ => inl OverflowError
  | S754_nan => inl ValueError
  | S754_finite s m e =>
      let n := if s then Z.neg m else Z.pos m in
      if 0 <=? e then inr (n * 2 ^ e, 1)
      else let g := Z.gcd n (2 ^ (- e)) in inr (n / g, 2 ^ (- e) / g)
  end.

(** [[int(x) for x in values]] *)
Fixpoint map_int (l : list string) : exn + list Z :=
  match l with
  | [] => inr []
  | x :: l' => rbind (py_int x) (fun n => rbind (map_int l') (fun ns => inr (n :: ns)))
  end.

(** [for x in values: assert x>0, ...] *)
Fixpoint assert_positive (l : list Z) : exn + unit :=
  match l with
  | [] => inr tt
  | x :: l' => rbind (py_assert (0 <? x)) (fun _ => assert_positive l')
  end.

(** [v.replace("/", ":").replace(",", ":").split(":", 1)] *)
Definition ratio_parts (v : string) : exn + list string :=
  py_split ":" (Some 1%nat) (replace_char "," ":" (replace_char "/" ":" v)).

Definition parse_scaling_value (v : string) : exn + option (Z * Z) :=
  if String.eqb v "" then inr None
  else if endswith "%" v then
    rbind (py_float (first_char v)) (fun f =>
    rbind (as_integer_ratio f) (fun r => inr (Some r)))
  else
    rbind (ratio_parts v) (fun values =>
    rbind (map_int values) (fun values =>
    rbind (assert_positive values) (fun _ =>
    match values with
    | [n] => inr (Some (1, n))
    | _ =>
        rbind (py_index values 0) (fun a =>
        rbind (py_index values 1) (fun b =>
        rbind (py_assert (a <=? b)) (fun _ => inr (Some (a, b)))))
    end))).

(** ** [parse_simple_dict]

    A dict is an association list in insertion order; a value is a string
    or, once its key repeats, a list of strings. *)

Inductive dval :=
| DStr (v : string)
| DList (vs : list string).

Definition dict : Type := list (string * dval).

(** [d.get(k)] *)
Fixpoint dict_get (k : string) (d : dict) : option dval :=
  match d with
  | [] => None
  | (k', v) :: d' => if String.eqb k k' then Some v else dict_get k d'
  end.

(** [d[k] = v]: an existing key keeps its place, a new one goes last. *)
Fixpoint dict_set (k : string) (v : dval) (d : dict) : dict :=
  match d with
  | [] => [(k, v)]
  | (k', v') :: d' =>
      if String.eqb k k' then (k', v) :: d' else (k', v') :: dict_set k v d'
  end.

(** The nested [may_add]. *)
Definition may_add (d : dict) (k v : string) : dval :=
  match dict_get k d with
  | None => DStr v
  | Some (DStr cur) => DList [cur; v]
  | Some (DList cur) => DList (cur ++ [v])
  end.

(** [k, v = ...]: unpacking raises [ValueError] unless there are exactly
    two items. *)
Definition unpack2 {A} (l : list A) : exn + (A * A) :=
  match l with
  | [a; b] => inr (a, b)
  | _ => inl ValueError
  end.

Fixpoint parse_simple_dict_loop (s : string) (els : list string) (d : dict) : M dict :=
  match els with
  | [] => ret d
  | el :: els' =>
      if String.eqb el "" then parse_simple_dict_loop s els' d
      else
        d' <- try_except
                (kv <- lift (rbind (py_split "=" (Some 1%nat) el) unpack2) ;;
                 let '(k, v) := kv in
                 ret (dict_set k (may_add d k v) d))
                catch_any
                (fun _ => warn ("Warning: failed to parse dictionary option '" ++ s ++ "':") ;;;
                          warn " <exception>" ;;;
                          ret d) ;;
        parse_simple_dict_loop s els' d'
  end.

Definition parse_simple_dict (s sep : string) : M dict :=
  els <- lift (py_split sep None s) ;;
  parse_simple_dict_loop s els [].

(** A string of [n] copies of [c], to build long inputs. *)
Fixpoint repeat_char (c : ascii) (n : nat) : string :=
  match n with
  | O => EmptyString
  | S n' => String c (repeat_char c n')
  end.

(** ** The rest of [xpra/util/parsing.py] *)

(** [str(n)] for an int: an optional ["-"] and the decimal digits. *)
Definition digit_char (d : Z) : ascii := chr (48 + Z.to_nat d).

Fixpoint dec_digits (fuel : nat) (n : Z) : list ascii :=
  match fuel with
  | O => []
  | S fuel' =>
      if n <? 10 then [digit_char n]
      else dec_digits fuel' (n / 10) ++ [digit_char (n mod 10)]
  end.

Definition str_of_Z (z : Z) : string :=
  let ds := dec_digits (S (Z.to_nat (Z.log2 (Z.abs z)))) (Z.abs z) in
  string_of_list_ascii (if z <? 0 then "-"%char :: ds else ds).

(** [sep.join(xs)] *)
Fixpoint py_join (sep : string) (xs : list string) : string :=
  match xs with
  | [] => EmptyString
  | [x] => x
  | x :: xs' => (x ++ sep ++ py_join sep xs')%string
  end.

(** [c in s] for a one-character [c]. *)
Definition has_char (c : ascii) (s : string) : bool :=
  existsb (Ascii.eqb c) (list_ascii_of_string s).

(** [a >= b]; false when either is a NaN. *)
Definition py_ge (a b : pynum) : bool :=
  match xcompare (xval_of a) (xval_of b) with Some Gt | Some Eq => true | _ => false end.

(** [a * b]: int by int is exact; otherwise both operands are converted to
    float and multiplied ([float_mul]). *)
Definition py_mul (a b : pynum) : exn + pynum :=
  match a, b with
  | PInt x, PInt y => inr (PInt (x * y))
  | _, _ =>
      rbind (to_float a) (fun fa =>
      rbind (to_float b) (fun fb => inr (PFloat (SFmul prec emax fa fb))))
  end.

(** [round(x)] with one argument: an int is returned as it is; a float is
    rounded to the nearest int, ties to even ([float___round___impl]);
    infinities raise [OverflowError] and NaN raises [ValueError]. *)
Definition py_round (n : pynum) : exn + Z :=
  match n with
  | PInt z => inr z
  | PFloat (S754_zero _) => inr 0
  | PFloat (S754_infinity _) => inl OverflowError
  | PFloat S754_nan => inl ValueError
  | PFloat (S754_finite s m e) =>
      let r :=
        if 0 <=? e then Z.pos m * 2 ^ e
        else
          let d := 2 ^ (- e) in
          let q := Z.pos m / d in
          let rm := Z.pos m mod d in
          if 2 * rm <? d then q
          else if d <? 2 * rm then q + 1
          else if Z.even q then q else q + 1 in
      inr (if s then - r else r)
  end.

Definition f1000_0 : float := decimal_to_float false 1000 0.

Definition r4cmp (v rounding : pynum) : exn + Z := rbind (py_mul v rounding) py_round.

(** [fequ(v1, v2)], with the default [rounding=1000.0]. *)
Definition fequ (v1 v2 : pynum) : exn + bool :=
  rbind (r4cmp v1 (PFloat f1000_0)) (fun a =>
  rbind (r4cmp v2 (PFloat f1000_0)) (fun b => inr (a =? b))).

(** [[float(x) for x in opts.split(",") if MAX_SCALING>=float(x)>=MIN_SCALING]],
    for the value [opts] of [XPRA_TRAY_SCALING_OPTIONS]. *)
Fixpoint scaling_options_loop (xs : list string) : exn + list pynum :=
  match xs with
  | [] => inr []
  | x :: xs' =>
      rbind (py_float x) (fun f =>
      rbind (scaling_options_loop xs') (fun rest =>
      inr (if py_ge MAX_SCALING (PFloat f) && py_ge (PFloat f) MIN_SCALING
           then PFloat f :: rest else rest)))
  end.

Definition SCALING_OPTIONS_of (opts : string) : exn + list pynum :=
  rbind (py_split "," None opts) scaling_options_loop.

(** The default of [XPRA_TRAY_SCALING_OPTIONS]. *)
Definition default_scaling_options : string :=
  "0.25,0.5,0.666,1,1.25,1.5,2.0,3.0,4.0,5.0".

(** The generator of [scaleup_value] and [scaledown_value] over the
    options [opts]: [cmp] is [>] or [<] on the rounded values. *)
Fixpoint scale_filter (cmp : Z -> Z -> bool) (opts : list pynum) (scaling : pynum)
    : exn + list pynum :=
  match opts with
  | [] => inr []
  | v :: opts' =>
      rbind (r4cmp v (PInt 10)) (fun a =>
      rbind (r4cmp scaling (PInt 10)) (fun b =>
      rbind (scale_filter cmp opts' scaling) (fun rest =>
      inr (if cmp a b then v :: rest else rest))))
  end.

Definition scaleup_value (opts : list pynum) (scaling : pynum) : exn + list pynum :=
  scale_filter (fun a b => b <? a) opts scaling.
Definition scaledown_value (opts : list pynum) (scaling : pynum) : exn + list pynum :=
  scale_filter Z.ltb opts scaling.

(** The argument of [intrangevalidator]: an int or a string. *)
Inductive intarg :=
| AInt (z : Z)
| AStr (s : string).

Definition int_of_arg (v : intarg) : exn + Z :=
  match v with AInt z => inr z | AStr s => py_int s end.

Definition intrangevalidator (v : intarg) (min_value max_value : option Z) : exn + Z :=
  rbind (int_of_arg v) (fun v =>
  if match min_value with Some m => v <? m | None => false end then inl ValueError
  else if match max_value with Some m => m <? v | None => false end then inl ValueError
  else inr v).

Definition from0to100 (v : intarg) : exn + Z := intrangevalidator v (Some 0) (Some 100).

(** The rows of an [auto:] table that parse, in order, and the number of
    entries that do not. *)
Fixpoint good_limits (limp : list string) : list limit :=
  match limp with
  | [] => []
  | l :: limp' =>
      match parse_limit l with inr r => r :: good_limits limp' | inl _ => good_limits limp' end
  end.

Fixpoint bad_limits (limp : list string) : nat :=
  match limp with
  | [] => O
  | l :: limp' =>
      match parse_limit l with inr _ => bad_limits limp' | inl _ => S (bad_limits limp') end
  end.

(** The entry [k=v] of a dict option string. *)
Definition kv_entry (kv : string * string) : string := (fst kv ++ "=" ++ snd kv)%string.

(** * [xpra/platform/posix/keyboard.py]

    The methods of [Keyboard] with the values they get from the X11
    keyboard bindings, [localectl] and D-Bus passed in as arguments. *)

(** A dict with string keys: [assoc_get] is [d.get(k)] and [assoc_set] is
    [d[k] = v] (an existing key keeps its place, a new one goes last). *)
Fixpoint assoc_get {V} (k : string) (d : list (string * V)) : option V :=
  match d with
  | [] => None
  | (k', v) :: d' => if String.eqb k k' then Some v else assoc_get k d'
  end.

Fixpoint assoc_set {V} (k : string) (v : V) (d : list (string * V)) : list (string * V) :=
  match d with
  | [] => [(k, v)]
  | (k', v') :: d' =>
      if String.eqb k k' then (k', v) :: d' else (k', v') :: assoc_set k v d'
  end.

(** ** [_store_input_sources] and [set_platform_layout] *)

(** The values [json.loads] returns. *)
#[warnings="-register-all"]
Inductive json :=
| JNull
| JBool (b : bool)
| JInt (z : Z)
| JFloat (f : float)
| JStr (s : string)
| JArr (l : list json)
| JObj (kvs : list (string * json)).

(** The dict [json.loads] builds from the members of an object: a
    repeated key keeps its first place and takes its last value. *)
Definition json_dict (kvs : list (string * json)) : list (string * json) :=
  fold_left (fun d kv => assoc_set (fst kv) (snd kv) d) kvs [].

(** [int(f)] for a float: truncation towards zero; [None] when it raises. *)
Definition float_trunc (f : float) : option Z :=
  match f with
  | S754_zero _ => Some 0
  | S754_infinity _ | S754_nan => None
  | S754_finite s m e =>
      let n := if 0 <=? e then Z.pos m * 2 ^ e else Z.pos m / 2 ^ (- e) in
      Some (if s then - n else n)
  end.

(** [int(j)]; [None] when it raises. *)
Definition json_int (j : json) : option Z :=
  match j with
  | JInt z => Some z
  | JBool b => Some (if b then 1 else 0)
  | JFloat f => float_trunc f
  | JStr s => match py_int s with inr z => Some z | inl _ => None end
  | JNull | JArr _ | JObj _ => None
  end.

(** [j[k]] for a string [k]; [None] when it raises. *)
Definition json_item (j : json) (k : string) : option json :=
  match j with JObj kvs => assoc_get k (json_dict kvs) | _ => None end.

Definition ism : string := "imports.ui.status.keyboard.getInputSourceManager()".

(** The code [set_platform_layout] evaluates in the shell for [index]. *)
Definition activate_cmd (index : Z) : string :=
  ism ++ ".inputSources[" ++ str_of_Z index ++ "].activate()".

(** [set_platform_layout]: the code sent to [org.gnome.Shell.Eval], or
    [None] when it returns without a D-Bus call. *)
Definition set_platform_layout (input_sources : list (string * Z)) (layout : string)
    : option string :=
  match assoc_get layout input_sources with
  | None => None
  | Some index => Some (activate_cmd index)
  end.

Section InputSources.

(** [str()] of a float, a list or a dict. *)
Variable repr_json : json -> string.

(** [str(j)] *)
Definition json_str (j : json) : string :=
  match j with
  | JStr s => s
  | JInt z => str_of_Z z
  | JBool true => "True"
  | JBool false => "False"
  | JNull => "None"
  | JFloat _ | JArr _ | JObj _ => repr_json j
  end.

(** One pass of the loop of [_store_input_sources]: the layout and index
    it stores, or [None] when the body raises. *)
Definition input_source_entry (layout_info : json) : option (string * Z) :=
  match json_item layout_info "index" with
  | None => None
  | Some ji =>
      match json_int ji with
      | None => None
      | Some index =>
          match json_item layout_info "id" with
          | None => None
          | Some jid =>
              let layout_variant := json_str jid in
              match rbind (py_split "+" (Some 1%nat) layout_variant) (fun l => py_index l 0) with
              | inr layout => Some (layout, index)
              | inl _ => None
              end
          end
      end
  end.

Fixpoint store_loop (vals : list json) (srcs : list (string * Z)) : list (string * Z) * bool :=
  match vals with
  | [] => (srcs, true)
  | v :: vals' =>
      match input_source_entry v with
      | None => (srcs, false)
      | Some (layout, index) => store_loop vals' (assoc_set layout index srcs)
      end
  end.

(** [_store_input_sources(input_sources)] on the dict [__input_sources]:
    its new value, and [false] when the call raised (the exception is
    caught and logged by [ok_cb], after the updates made so far). *)
Definition store_input_sources (input_sources : json) (srcs : list (string * Z))
    : list (string * Z) * bool :=
  match input_sources with
  | JObj kvs => store_loop (map snd (json_dict kvs)) srcs
  | _ => (srcs, false)
  end.

(** The layouts and indexes of the values up to the first one that
    raises. *)
Fixpoint parsed_prefix (vals : list json) : list (string * Z) :=
  match vals with
  | [] => []
  | v :: vals' =>
      match input_source_entry v with
      | None => []
      | Some e => e :: parsed_prefix vals'
      end
  end.

End InputSources.

(** The index the last entry for [layout] gives, else [old]. *)
Definition last_index (layout : string) (entries : list (string * Z)) (old : option Z) : option Z :=
  fold_left (fun acc e => if String.eqb (fst e) layout then Some (snd e) else acc) entries old.

(** ** The X11 keyboard bindings *)

(** A value of [getXkbProperties()]: a [str], [bytes] or [None]. *)
Inductive pyval :=
| VNone
| VStr (s : string)
| VBytes (b : string).

(** What [get_key_repeat_rate()] gives: it raises, or returns a value
    ([None] or a tuple of ints). *)
Inductive rate_result :=
| RateRaises
| RateValue (v : option (list Z)).

(** The answers of [X11KeyboardBindings] at the time of a call. *)
Record x11_bindings := {
  modifier_mappings : list (string * list (Z * string));
  xkb_properties : list (string * pyval);
  key_repeat_rate : rate_result
}.

(** [first_time(key)] over the set of keys already seen. *)
Definition first_time (key : string) (seen : list string) : bool * list string :=
  if string_in key seen then (false, seen) else (true, seen ++ [key]).

(** ** [do_get_keymap_modifiers] and [get_keymap_modifiers] *)

Definition keymap_mods : Type := (list (string * string) * list string * list string)%type.

Fixpoint meanings_loop (mm : list (string * list (Z * string)))
    (meanings : list (string * string)) : list (string * string) :=
  match mm with
  | [] => meanings
  | (modifier, keys) :: mm' =>
      meanings_loop mm' (fold_left (fun d k => assoc_set (snd k) modifier d) keys meanings)
  end.

(** The result, the new set of [first_time] keys and the warnings. *)
Definition do_get_keymap_modifiers (wayland : bool) (kb : option x11_bindings)
    (seen : list string) : keymap_mods * list string * list string :=
  match kb with
  | None =>
      if wayland then
        let '(ft, seen') := first_time "wayland-keymap" seen in
        (([], [], ["mod2"%string]), seen',
         if ft then ["Warning: incomplete keymap support under Wayland"%string] else [])
      else (([], [], []), seen, [])
  | Some b =>
      let mod_mappings := modifier_mappings b in
      match mod_mappings with
      | [] => (([], [], []), seen, [])
      | _ =>
          let meanings := meanings_loop mod_mappings [] in
          let numlock_mod := assoc_get "Num_Lock" meanings in
          let mod_missing :=
            match numlock_mod with
            | Some m => if String.eqb m "" then [] else [m]
            | None => []
            end in
          ((meanings, [], mod_missing), seen, [])
      end
  end.




(** The modifier of the last entry of [mm] that lists [keyname]. *)
Definition last_modifier (keyname : string) (mm : list (string * list (Z * string))) : option string :=
  fold_left (fun acc e => if existsb (fun k => String.eqb (snd k) keyname) (snd e)
                          then Some (fst e) else acc) mm None.

(** ** [get_keyboard_repeat] *)

Definition repeat_error : list string :=
  ["Error: failed to get keyboard repeat rate:"; " <exception>"]%string.

Definition get_keyboard_repeat (kb : option x11_bindings) : option (Z * Z) * list string :=
  match kb with
  | None => (None, [])
  | Some b =>
      match key_repeat_rate b with
      | RateRaises => (None, repeat_error)
      | RateValue None => (None, [])
      | RateValue (Some v) =>
          if match v with [] => false | _ => true end then
            match rbind (py_assert (List.length v =? 2)%nat) (fun _ =>
                  rbind (py_index v 0) (fun a => rbind (py_index v 1) (fun b => inr (a, b)))) with
            | inr ab => (Some ab, [])
            | inl _ => (None, repeat_error)
            end
          else (None, [])
      end
  end.

(** ** [get_locale_status] *)

(** The line boundaries of [str.splitlines] among U+0000..U+00FF. *)
Definition is_linebreak (c : ascii) : bool :=
  let n := ord c in
  ((10 <=? n) && (n <=? 13))%nat || ((28 <=? n) && (n <=? 30))%nat || (n =? 133)%nat.

Fixpoint splitlines_go (acc : list ascii) (l : list ascii) : list string :=
  match l with
  | [] => match acc with [] => [] | _ => [string_of_list_ascii (rev acc)] end
  | c :: l' =>
      if is_linebreak c then
        string_of_list_ascii (rev acc)
        :: match l' with
           | d :: l'' =>
               if Ascii.eqb c "013" && Ascii.eqb d "010" then splitlines_go [] l''
               else splitlines_go [] l'
           | [] => splitlines_go [] l'
           end
      else splitlines_go (c :: acc) l'
  end.

(** [s.splitlines()] *)
Definition splitlines (s : string) : list string := splitlines_go [] (list_ascii_of_string s).

(** [s.lstrip(" ")] *)
Definition lstrip_spaces (s : string) : string :=
  string_of_list_ascii (drop_while (fun c => Ascii.eqb c " ") (list_ascii_of_string s)).

Fixpoint locale_loop (lines : list string) (locale : list (string * string))
    : exn + list (string * string) :=
  match lines with
  | [] => inr locale
  | line :: lines' =>
      rbind (py_split ": " None (lstrip_spaces line)) (fun parts =>
      match parts with
      | [k; v] => locale_loop lines' (assoc_set k v locale)
      | _ => locale_loop lines' locale
      end)
  end.

(** [get_locale_status()] for the output [out] of [localectl status]. *)
Definition get_locale_status (out : string) : exn + list (string * string) :=
  if String.eqb out "" then inr [] else locale_loop (splitlines out) [].

(** A line of [localectl status]: the key right-aligned by [pad] spaces. *)
Definition localectl_line (e : nat * string * string) : string :=
  let '(pad, k, v) := e in (repeat_char " " pad ++ k ++ ": " ++ v)%string.

(** No character of [s] is a line boundary of [str.splitlines]. *)
Definition no_linebreak (s : string) : bool :=
  forallb (fun c => negb (is_linebreak c)) (list_ascii_of_string s).

(** ** [get_layout_spec] *)




(** * [xpra/gtk/window.py] *)

Inductive window_type := ROOT | TOPLEVEL | CHILD | TEMP | FOREIGN | OFFSCREEN | SUBSURFACE.
Inductive window_class := INPUT_OUTPUT | INPUT_ONLY.

(** The bits of [GdkWindowAttributesType]. *)
Definition WA_TITLE : Z := Z.shiftl 1 1.
Definition WA_X : Z := Z.shiftl 1 2.
Definition WA_Y : Z := Z.shiftl 1 3.
Definition WA_CURSOR : Z := Z.shiftl 1 4.
Definition WA_VISUAL : Z := Z.shiftl 1 5.
Definition WA_WMCLASS : Z := Z.shiftl 1 6.
Definition WA_NOREDIR : Z := Z.shiftl 1 7.
Definition WA_TYPE_HINT : Z := Z.shiftl 1 8.

(** A [Gdk.WindowAttr]; a field never assigned is [None]. *)
Record window_attr (V : Type) := {
  attr_x : option Z;
  attr_y : option Z;
  attr_width : Z;
  attr_height : Z;
  attr_window_type : window_type;
  attr_title : option string;
  attr_visual : option V;
  attr_override_redirect : bool;
  attr_event_mask : Z;
  attr_wclass : window_class
}.
Arguments attr_x {V}. Arguments attr_y {V}. Arguments attr_title {V}.
Arguments attr_visual {V}. Arguments attr_window_type {V}. Arguments attr_wclass {V}.

Definition is_some {A} (o : option A) : bool := match o with Some _ => true | None => false end.

(** [new_GDKWindow]: the arguments [(parent, attributes, mask)] it passes
    to [gdk_window_class]. *)
Definition new_GDKWindow {P V : Type} (parent : P) (width height : Z)
    (window_type : option window_type) (event_mask : Z) (wclass : option window_class)
    (title : option string) (x y : option Z) (override_redirect : bool)
    (visual : option V) : P * window_attr V * Z :=
  let window_type := match window_type with None => TOPLEVEL | Some t => t end in
  let wclass := match wclass with None => INPUT_OUTPUT | Some c => c end in
  let attributes_mask := 0 in
  let attributes_mask := match x with Some _ => Z.lor attributes_mask WA_X | None => attributes_mask end in
  let attributes_mask := match y with Some _ => Z.lor attributes_mask WA_Y | None => attributes_mask end in
  let title_set := match title with Some t => negb (String.eqb t "") | None => false end in
  let attributes_mask := if title_set then Z.lor attributes_mask WA_TITLE else attributes_mask in
  let attributes_mask := match visual with Some _ => Z.lor attributes_mask WA_VISUAL | None => attributes_mask end in
  let attributes_mask := Z.lor attributes_mask WA_NOREDIR in
  let attributes :=
    {| attr_x := x; attr_y := y; attr_width := width; attr_height := height;
       attr_window_type := window_type;
       attr_title := if title_set then title else None;
       attr_visual := visual;
       attr_override_redirect := override_redirect;
       attr_event_mask := event_mask; attr_wclass := wclass |} in
  (parent, attributes, attributes_mask).

(** The screen of a window, as [set_visual] queries it. *)
Record screen (V : Type) := {
  rgba_visual : option V;
  system_visual : option V;
  is_composited : bool
}.
Arguments rgba_visual {V}. Arguments system_visual {V}. Arguments is_composited {V}.

Inductive level := LWarn | LDebug.

(** [set_visual(window, alpha)] on a window whose visual is [win_visual]:
    the visual returned, the window's visual afterwards, the new set of
    [first_time] keys and the lines given to [l] (the other debug lines
    of [alphalog] are left out). *)
Definition set_visual {V : Type} (WIN32 : bool) (scr : screen V) (seen : list string)
    (win_visual : option V) (alpha : bool)
    : exn + (option V * option V * list string * list (level * string)) :=
  let visual := if alpha then rgba_visual scr else system_visual scr in
  let '(l, seen') :=
    if WIN32 then (LDebug, seen)
    else let '(ft, seen') := first_time "no-rgba" seen in
         (if ft then LWarn else LDebug, seen') in
  let visual_none := match visual with None => true | Some _ => false end in
  if (alpha && visual_none) || (negb WIN32 && negb (is_composited scr)) then
    let lg := [(l, "Warning: cannot handle window transparency"%string)] in
    if visual_none then inr (None, win_visual, seen', lg ++ [(l, " no RGBA visual"%string)])
    else rbind (py_assert (negb (is_composited scr))) (fun _ =>
         inr (None, win_visual, seen', lg ++ [(l, " screen is not composited"%string)]))
  else
    let win_visual := match visual with Some v => Some v | None => win_visual end in
    inr (visual, win_visual, seen', []).

(** The area [max_width * max_height] of a row of the auto table. *)
Definition limit_area (r : limit) : Z :=
  let '(mx, my, _, _) := r in mx * my.

(** An entry split at its first ["="]: the key before it and the value
    after it (which may contain more ["="]). *)
Fixpoint break_at_eq (el : string) : option (string * string) :=
  match el with
  | EmptyString => None
  | String c rest =>
      if Ascii.eqb c "=" then Some (EmptyString, rest)
      else option_map (fun kv => (String c (fst kv), snd kv)) (break_at_eq rest)
  end.

(** The key/value pairs of the non-empty entries that contain ["="], in
    input order. *)
Fixpoint kv_entries (els : list string) : list (string * string) :=
  match els with
  | [] => []
  | el :: els' =>
      if String.eqb el "" then kv_entries els'
      else match break_at_eq el with
           | Some kv => kv :: kv_entries els'
           | None => kv_entries els'
           end
  end.

(** The number of non-empty entries without ["="]. *)
Fixpoint bad_entries (els : list string) : nat :=
  match els with
  | [] => O
  | el :: els' =>
      if String.eqb el "" then bad_entries els'
      else match break_at_eq el with
           | Some _ => bad_entries els'
           | None => S (bad_entries els')
           end
  end.

(** The values given to key [k], in input order. *)
Definition values_for (k : string) (entries : list (string * string)) : list string :=
  map snd (filter (fun kv => String.eqb (fst kv) k) entries).

(** The dict value expected for a key given the values [vs]: absent, a
    single string, or the list of all of them. *)
Definition collected (vs : list string) : option dval :=
  match vs with
  | [] => None
  | [v] => Some (DStr v)
  | _ => Some (DList vs)
  end.

Definition dval_list (o : option dval) : list string :=
  match o with
  | None => []
  | Some (DStr v) => [v]
  | Some (DList vs) => vs
  end.

(** No key holds a list of fewer than two values. *)
Definition dict_wf (d : dict) : Prop :=
  forall k, dict_get k d = collected (dval_list (dict_get k d)).

(** * Properties *)

(** ** The examples of the spec *)

Example parse_scaling_auto_4k :
  fst (run (parse_scaling "auto" 3840 2160 MIN_SCALING MAX_SCALING))
  = inr (PFloat f1_0, PFloat f1_0).
Proof. vm_compute. reflexivity. Qed.

Example parse_scaling_auto_custom_table :
  fst (run (parse_scaling "auto:1920x1080:1,3840x2160:2" 2000 1000 MIN_SCALING MAX_SCALING))
  = inr (PFloat f1_0, PFloat f1_0)
  /\ fst (run (parse_scaling "auto:1920x1080:1,3840x2160:2" 3000 2000 MIN_SCALING MAX_SCALING))
  = inr (PFloat (decimal_to_float false 2 0), PFloat (decimal_to_float false 2 0)).
Proof. split; vm_compute; reflexivity. Qed.

Example parse_scaling_fixed_values :
  fst (run (parse_scaling "2" 0 0 MIN_SCALING MAX_SCALING)) = inr (PInt 2, PInt 2)
  /\ fst (run (parse_scaling "150%" 0 0 MIN_SCALING MAX_SCALING)) = inr (PFloat f1_5, PFloat f1_5)
  /\ fst (run (parse_scaling "3:2" 0 0 MIN_SCALING MAX_SCALING)) = inr (PFloat f1_5, PFloat f1_5)
  /\ fst (run (parse_scaling "3/2" 0 0 MIN_SCALING MAX_SCALING)) = inr (PFloat f1_5, PFloat f1_5)
  /\ fst (run (parse_scaling "1920x1080" 1920 1080 MIN_SCALING MAX_SCALING))
     = inr (PFloat f1_0, PFloat f1_0).
Proof. repeat split; vm_compute; reflexivity. Qed.

Example parse_scaling_value_examples :
  parse_scaling_value "" = inr None
  /\ parse_scaling_value "3:2" = inl AssertionError
  /\ parse_scaling_value "2:3" = inr (Some (2, 3)).
Proof. repeat split; vm_compute; reflexivity. Qed.

Example parse_simple_dict_bad_entry :
  run (parse_simple_dict "bad,a=1" ",")
  = (inr [("a", DStr "1")],
     ["Warning: failed to parse dictionary option 'bad,a=1':"; " <exception>"])%string.
Proof. vm_compute. reflexivity. Qed.

(** ** C1: [parse_scaling] can raise *)

(** C1 (code_bug).  [parse_scaling] raises on some inputs: a value of
    401 digits is an int above [max_scaling], and its normalisation
    [sx /= root_w] raises [OverflowError]; with [root_w = 0] the same step
    raises [ZeroDivisionError]. *)
Theorem parse_scaling_raises_in_normalisation :
  fst (run (parse_scaling (String "1" (repeat_char "0" 400)) 1920 1080 MIN_SCALING MAX_SCALING))
  = inl OverflowError
  /\ fst (run (parse_scaling "16" 0 0 MIN_SCALING MAX_SCALING)) = inl ZeroDivisionError.
Proof. split; vm_compute; reflexivity. Qed.

(** ** C2: the percentage branch of [parse_scaling_value] *)

(** C2 (code_bug).  [parse_scaling_value "50%"] converts only the first
    character ([v[:1]]) and does not divide by 100: it returns [(5, 1)],
    not [(1, 2)]. *)
Theorem parse_scaling_value_50_percent :
  parse_scaling_value "50%" = inr (Some (5, 1)).
Proof. vm_compute. reflexivity. Qed.

(** ** C4: the default auto table *)

(** C4 (counterexample).  At 8000x4300 the default table does not give
    [(1.25, 1.25)]: 8000*4300 exceeds 7680*4320. *)
Lemma parse_scaling_auto_8000x4300_not_1_25 :
  fst (run (parse_scaling "auto" 8000 4300 MIN_SCALING MAX_SCALING))
  <> inr (PFloat f1_25, PFloat f1_25).
Proof. vm_compute. intro H. congruence. Qed.

(** C4 (amended).  With the default table, [parse_scaling "auto"] returns
    [(1.0, 1.0)] at 3840x2160 and [(1.5, 1.5)] at 8000x4300, whatever the
    bounds. *)
Theorem parse_scaling_auto_default_table (mn mx : pynum) :
  fst (run (parse_scaling "auto" 3840 2160 mn mx)) = inr (PFloat f1_0, PFloat f1_0)
  /\ fst (run (parse_scaling "auto" 8000 4300 mn mx)) = inr (PFloat f1_5, PFloat f1_5).
Proof. split; reflexivity. Qed.

(** ** C5: a failed second component *)

(** C5 (code_bug).  The second component ["3/0"] fails to parse and
    [parse_item] returns [0]; the [sy is None] test never fires, and with
    [min_scaling = 0] the result is [(2, 0)], not [(1, 1)]. *)
Theorem parse_scaling_failed_second_component :
  fst (run (parse_scaling "2x3/0" 100 100 (PInt 0) MAX_SCALING)) = inr (PInt 2, PInt 0).
Proof. vm_compute. reflexivity. Qed.

(** ** C6: the percentage branch is not checked *)

(** C6 (counterexample).  Tokens ending in ["%"] are returned without the
    checks: ["9%"] gives the upscaling ratio [(9, 1)] and ["0%"] gives
    [(0, 1)], both without an error. *)
Lemma parse_scaling_value_percent_unchecked :
  parse_scaling_value "9%" = inr (Some (9, 1))
  /\ parse_scaling_value "0%" = inr (Some (0, 1)).
Proof. split; vm_compute; reflexivity. Qed.

(** ** C8: an empty separator *)

(** C8 (counterexample).  [parse_simple_dict] raises [ValueError] when
    [sep] is empty ([str.split("")]). *)
Lemma parse_simple_dict_empty_separator :
  fst (run (parse_simple_dict "a=1" "")) = inl ValueError.
Proof. vm_compute. reflexivity. Qed.

(** ** C9: the bounds on the truthy and auto paths *)

(** C9.  On the truthy and auto paths the bounds are never read: two calls
    that differ only in [min_scaling] and [max_scaling] give the same
    result and the same warnings; so an auto table value above
    [max_scaling] (here 1.5 above 1) is returned as it is. *)
Theorem parse_scaling_bounds_unused (s : string) (w h : Z) (mn1 mx1 mn2 mx2 : pynum) :
  string_in s TRUE_OPTIONS = true \/ startswith "auto" s = true ->
  run (parse_scaling s w h mn1 mx1) = run (parse_scaling s w h mn2 mx2)
  /\ fst (run (parse_scaling "auto" 8000 4300 MIN_SCALING (PInt 1)))
     = inr (PFloat f1_5, PFloat f1_5)
  /\ py_gt (PFloat f1_5) (PInt 1) = true.
Proof.
  intros Hs. split; [|split; vm_compute; reflexivity].
  unfold parse_scaling.
  destruct (string_in s TRUE_OPTIONS) eqn:Ht; [reflexivity|].
  destruct Hs as [Hs|Hs]; [discriminate|]. rewrite Hs. reflexivity.
Qed.

Lemma parse_scaling_bounds_unused_witness :
  (string_in "auto" TRUE_OPTIONS = true \/ startswith "auto" "auto" = true)
  /\ run (parse_scaling "auto" 100 100 MIN_SCALING MAX_SCALING)
     = run (parse_scaling "auto" 100 100 (PInt 0) (PInt 1)).
Proof.
  split; [right; reflexivity|].
  apply (parse_scaling_bounds_unused "auto" 100 100 MIN_SCALING MAX_SCALING (PInt 0) (PInt 1)).
  right; reflexivity.
Defined.

(** ** C6 and C10: [parse_scaling_value] on ratio tokens *)

Lemma assert_positive_ok (l : list Z) :
  assert_positive l = inr tt -> forall x, In x l -> 0 < x.
Proof.
  induction l as [|y l IH]; simpl; [tauto|].
  unfold py_assert, rbind. destruct (0 <? y) eqn:Hy; [|discriminate].
  intros Hl x [<-|Hx]; [lia|]. apply IH; assumption.
Qed.

Lemma assert_positive_fail (l : list Z) :
  (exists z, In z l /\ z <= 0) -> exists e, assert_positive l = inl e.
Proof.
  induction l as [|y l IH]; simpl; [firstorder|].
  intros [z [[<-|Hz] Hle]]; unfold py_assert, rbind.
  - destruct (0 <? y) eqn:Hy; [apply Z.ltb_lt in Hy; lia|eauto].
  - destruct (0 <? y); [|eauto]. apply IH. eauto.
Qed.

Lemma assert_positive_all (l : list Z) :
  (forall x, In x l -> 0 < x) -> assert_positive l = inr tt.
Proof.
  induction l as [|y l IH]; simpl; [reflexivity|].
  intros H. unfold py_assert, rbind.
  replace (0 <? y) with true by (symmetry; apply Z.ltb_lt; auto).
  apply IH. auto.
Qed.

(** C10.  Whenever [parse_scaling_value] succeeds on a non-empty token
    that does not end in ["%"], the ratio [(a, b)] satisfies [0 < a <= b]. *)
Theorem parse_scaling_value_downscale (v : string) (a b : Z) :
  v <> ""%string -> endswith "%" v = false ->
  parse_scaling_value v = inr (Some (a, b)) -> 0 < a <= b.
Proof.
  intros Hne Hpct. unfold parse_scaling_value.
  destruct (String.eqb_spec v "") as [->|_]; [congruence|]. rewrite Hpct.
  destruct (ratio_parts v) as [e|parts]; simpl; [discriminate|].
  destruct (map_int parts) as [e|zs]; simpl; [discriminate|].
  destruct (assert_positive zs) as [e|[]] eqn:Hpos; simpl; [discriminate|].
  pose proof (assert_positive_ok zs Hpos) as Hz.
  destruct zs as [|x [|y zs]]; simpl.
  - discriminate.
  - intros [= <- <-]. specialize (Hz x (or_introl eq_refl)). lia.
  - unfold py_index, py_assert; simpl.
    destruct (x <=? y) eqn:Hxy; simpl; [|discriminate].
    intros [= <- <-]. specialize (Hz x (or_introl eq_refl)).
    apply Z.leb_le in Hxy. lia.
Qed.

Lemma parse_scaling_value_downscale_witness :
  ("2:3"%string <> ""%string /\ endswith "%" "2:3" = false
   /\ parse_scaling_value "2:3" = inr (Some (2, 3))) /\ 0 < 2 <= 3.
Proof.
  assert (H1 : "2:3"%string <> ""%string) by discriminate.
  assert (H2 : endswith "%" "2:3" = false) by reflexivity.
  assert (H3 : parse_scaling_value "2:3" = inr (Some (2, 3))) by reflexivity.
  split; [split; [exact H1|split; [exact H2|exact H3]]|].
  exact (parse_scaling_value_downscale "2:3" 2 3 H1 H2 H3).
Defined.

(** C6 (amended).  [parse_scaling_value] returns [None] on the empty
    string.  For a non-empty token not ending in ["%"], whose components
    parse as the integers [zs]: it raises when some integer is [<= 0] or
    when [zs = [a; b]] with [a > b]; a single [N > 0] gives [(1, N)] and
    [0 < A <= B] gives [(A, B)]. *)
Theorem parse_scaling_value_ratio_checks (v : string) (parts : list string) (zs : list Z) :
  v <> ""%string -> endswith "%" v = false ->
  ratio_parts v = inr parts -> map_int parts = inr zs ->
  parse_scaling_value "" = inr None
  /\ ((exists z, In z zs /\ z <= 0) -> exists e, parse_scaling_value v = inl e)
  /\ (forall a b, zs = [a; b] -> b < a -> exists e, parse_scaling_value v = inl e)
  /\ (forall n, zs = [n] -> 0 < n -> parse_scaling_value v = inr (Some (1, n)))
  /\ (forall a b, zs = [a; b] -> 0 < a <= b -> parse_scaling_value v = inr (Some (a, b))).
Proof.
  intros Hne Hpct Hparts Hzs.
  assert (Hv : parse_scaling_value v =
          rbind (assert_positive zs) (fun _ =>
            match zs with
            | [n] => inr (Some (1, n))
            | _ => rbind (py_index zs 0) (fun a => rbind (py_index zs 1) (fun b =>
                   rbind (py_assert (a <=? b)) (fun _ => inr (Some (a, b)))))
            end)).
  { unfold parse_scaling_value.
    destruct (String.eqb_spec v "") as [->|_]; [congruence|].
    rewrite Hpct, Hparts. simpl. rewrite Hzs. reflexivity. }
  split; [reflexivity|]. rewrite Hv. split; [|split; [|split]].
  - intros Hneg. destruct (assert_positive_fail zs Hneg) as [e He].
    rewrite He. simpl. eauto.
  - intros a b -> Hba. simpl.
    destruct (0 <? a); simpl; [|eauto].
    destruct (0 <? b); simpl; [|eauto].
    unfold py_index, py_assert; simpl.
    replace (a <=? b) with false by (symmetry; apply Z.leb_gt; lia). simpl. eauto.
  - intros n -> Hn. rewrite assert_positive_all; [reflexivity|].
    intros x [<-|[]]; assumption.
  - intros a b -> Hab. rewrite assert_positive_all.
    + unfold py_index, py_assert; simpl.
      replace (a <=? b) with true by (symmetry; apply Z.leb_le; lia). reflexivity.
    + intros x [<-|[<-|[]]]; lia.
Qed.

Lemma parse_scaling_value_ratio_checks_witness :
  parse_scaling_value "" = inr None
  /\ ((exists z, In z [2; 3] /\ z <= 0) -> exists e, parse_scaling_value "2:3" = inl e)
  /\ (forall a b, [2; 3] = [a; b] -> b < a -> exists e, parse_scaling_value "2:3" = inl e)
  /\ (forall n, [2; 3] = [n] -> 0 < n -> parse_scaling_value "2:3" = inr (Some (1, n)))
  /\ (forall a b, [2; 3] = [a; b] -> 0 < a <= b -> parse_scaling_value "2:3" = inr (Some (a, b))).
Proof.
  apply (parse_scaling_value_ratio_checks "2:3" ["2"; "3"]%string [2; 3]).
  - discriminate.
  - reflexivity.
  - reflexivity.
  - reflexivity.
Defined.

(** ** C3: the auto table is searched in order *)

Lemma parse_limits_loop_total (limp : list string) (limits : list limit) (w : list string) :
  exists limits' w', parse_limits_loop limp limits w = (inr limits', w').
Proof.
  revert limits w. induction limp as [|l limp IH]; intros limits w; simpl; [do 2 eexists; reflexivity|].
  unfold bind, try_except, lift, ret, warn.
  destruct (parse_limit l) as [e|r]; simpl; apply IH.
Qed.

Lemma auto_limits_total (s : string) (w : list string) :
  exists limits w', auto_limits s w = (inr limits, w').
Proof.
  unfold auto_limits.
  destruct (startswith "auto:" s).
  - unfold bind, lift. simpl. apply parse_limits_loop_total.
  - destruct (negb (String.eqb s "auto")); unfold bind, warn, ret; simpl; eauto.
Qed.

Lemma true_options_not_auto (s : string) :
  string_in s TRUE_OPTIONS = true -> startswith "auto" s = false.
Proof.
  unfold string_in, TRUE_OPTIONS.
  destruct (String.eqb_spec s "yes") as [->|_]; [reflexivity|].
  destruct (String.eqb_spec s "true") as [->|_]; [reflexivity|].
  destruct (String.eqb_spec s "1") as [->|_]; [reflexivity|].
  destruct (String.eqb_spec s "on") as [->|_]; [reflexivity|].
  discriminate.
Qed.

Lemma match_limits_first (w h : Z) (limits : list limit) :
  (exists i mxw mxh,
      nth_error limits i = Some (mxw, mxh, fst (match_limits w h limits), snd (match_limits w h limits))
      /\ w * h <= mxw * mxh
      /\ forall j r, (j < i)%nat -> nth_error limits j = Some r -> limit_area r < w * h)
  \/ ((forall r, In r limits -> limit_area r < w * h)
      /\ match_limits w h limits = (PFloat f1_0, PFloat f1_0)).
Proof.
  induction limits as [|[[[mxw mxh] tsx] tsy] limits IH]; simpl.
  - right. split; [tauto|reflexivity].
  - destruct (w * h <=? mxw * mxh) eqn:Hle.
    + left. exists O, mxw, mxh. simpl. repeat split.
      * apply Z.leb_le. assumption.
      * intros j r Hj. lia.
    + apply Z.leb_gt in Hle.
      destruct IH as [(i & a & b & Hi & Hab & Hbefore)|[Hall Heq]].
      * left. exists (S i), a, b. simpl. repeat split; [assumption|assumption|].
        intros [|j] r Hj; simpl.
        -- intros [= <-]. simpl. lia.
        -- intros Hr. apply (Hbefore j r); [lia|assumption].
      * right. split; [|assumption].
        intros r [<-|Hr]; [simpl; lia|auto].
Qed.

(** C3.  In auto mode [parse_scaling] builds its table ([auto_limits]),
    never raises, and returns the [(scale_x, scale_y)] of the first row in
    table order whose [max_width * max_height] is at least
    [root_w * root_h]: every earlier row has a smaller area.  When no row
    matches it returns [(1.0, 1.0)]. *)
Theorem parse_scaling_auto_first_match (s : string) (w h : Z) (mn mx : pynum) :
  startswith "auto" s = true ->
  exists limits pair,
    fst (run (auto_limits s)) = inr limits
    /\ fst (run (parse_scaling s w h mn mx)) = inr pair
    /\ ((exists i mxw mxh,
           nth_error limits i = Some (mxw, mxh, fst pair, snd pair)
           /\ w * h <= mxw * mxh
           /\ forall j r, (j < i)%nat -> nth_error limits j = Some r -> limit_area r < w * h)
        \/ ((forall r, In r limits -> limit_area r < w * h)
            /\ pair = (PFloat f1_0, PFloat f1_0))).
Proof.
  intros Hauto.
  destruct (auto_limits_total s []) as (limits & w' & Hl).
  exists limits, (match_limits w h limits).
  unfold run. rewrite Hl. split; [reflexivity|]. split.
  - unfold parse_scaling.
    destruct (string_in s TRUE_OPTIONS) eqn:Ht.
    + rewrite (true_options_not_auto s Ht) in Hauto. discriminate.
    + rewrite Hauto. unfold bind. rewrite Hl. reflexivity.
  - apply match_limits_first.
Qed.

Lemma parse_scaling_auto_first_match_witness :
  startswith "auto" "auto" = true
  /\ exists limits pair,
    fst (run (auto_limits "auto")) = inr limits
    /\ fst (run (parse_scaling "auto" 8000 4300 MIN_SCALING MAX_SCALING)) = inr pair
    /\ ((exists i mxw mxh,
           nth_error limits i = Some (mxw, mxh, fst pair, snd pair)
           /\ 8000 * 4300 <= mxw * mxh
           /\ forall j r, (j < i)%nat -> nth_error limits j = Some r -> limit_area r < 8000 * 4300)
        \/ ((forall r, In r limits -> limit_area r < 8000 * 4300)
            /\ pair = (PFloat f1_0, PFloat f1_0))).
Proof.
  split; [reflexivity|].
  apply (parse_scaling_auto_first_match "auto" 8000 4300 MIN_SCALING MAX_SCALING).
  reflexivity.
Defined.

(** ** C7: conflicting separators *)

Lemma find_char_zero (c : ascii) (s : string) :
  find_char c s = 0 -> exists r, s = String c r.
Proof.
  destruct s as [|d r]; simpl; [discriminate|].
  destruct (Ascii.eqb_spec c d) as [->|_]; [eauto|].
  destruct (find_char c r <? 0) eqn:Hr; [discriminate|].
  apply Z.ltb_ge in Hr. lia.
Qed.

Lemma string_of_list_ascii_app (l1 l2 : list ascii) :
  string_of_list_ascii (l1 ++ l2)
  = (string_of_list_ascii l1 ++ string_of_list_ascii l2)%string.
Proof. induction l1 as [|c l1 IH]; simpl; [reflexivity|]. rewrite IH. reflexivity. Qed.

Lemma string_app_assoc (a b c : string) : ((a ++ b) ++ c = a ++ (b ++ c))%string.
Proof. induction a as [|x a IH]; simpl; [reflexivity|]. rewrite IH. reflexivity. Qed.

Lemma string_app_nil_r (a : string) : (a ++ "" = a)%string.
Proof. induction a as [|x a IH]; simpl; [reflexivity|]. rewrite IH. reflexivity. Qed.

(** The first piece of a split starts with the characters accumulated so
    far. *)
Lemma split_go_first (fuel : nat) (sep : string) (m : option nat) (acc : list ascii) (s : string) :
  exists p rest,
    split_go fuel sep m acc s = (string_of_list_ascii (rev acc) ++ p)%string :: rest.
Proof.
  revert m acc s. induction fuel as [|fuel IH]; intros m acc s; simpl.
  - eauto.
  - destruct m as [[|k]|].
    + eauto.
    + destruct (strip_prefix sep s) as [rest|].
      * exists ""%string. rewrite string_app_nil_r. eauto.
      * destruct s as [|c s].
        -- exists ""%string. rewrite string_app_nil_r. eauto.
        -- destruct (IH (Some (S k)) (c :: acc) s) as (p & rest & ->).
           exists (String c p), rest. simpl. rewrite string_of_list_ascii_app, string_app_assoc.
           reflexivity.
    + destruct (strip_prefix sep s) as [rest|].
      * exists ""%string. rewrite string_app_nil_r. eauto.
      * destruct s as [|c s].
        -- exists ""%string. rewrite string_app_nil_r. eauto.
        -- destruct (IH None (c :: acc) s) as (p & rest & ->).
           exists (String c p), rest. simpl. rewrite string_of_list_ascii_app, string_app_assoc.
           reflexivity.
Qed.

Lemma drop_while_snoc (p : ascii -> bool) (l : list ascii) (c : ascii) :
  p c = false -> drop_while p (l ++ [c]) = drop_while p l ++ [c].
Proof.
  intros Hc. induction l as [|d l IH]; simpl.
  - rewrite Hc. reflexivity.
  - destruct (p d); [exact IH|reflexivity].
Qed.

Lemma strip_cons (c : ascii) (l : list ascii) :
  is_space c = false -> exists l', strip (c :: l) = c :: l'.
Proof.
  intros Hc. unfold strip. simpl. rewrite Hc. simpl.
  rewrite drop_while_snoc by assumption. rewrite rev_app_distr. simpl. eauto.
Qed.

Lemma py_int_colon (s : string) : py_int (String ":" s) = inl ValueError.
Proof.
  unfold py_int. simpl list_ascii_of_string.
  destruct (strip_cons ":" (list_ascii_of_string s) eq_refl) as [l' ->].
  reflexivity.
Qed.

Lemma py_float_colon (s : string) : py_float (String ":" s) = inl ValueError.
Proof.
  unfold py_float. simpl list_ascii_of_string.
  destruct (existsb (fun c => Ascii.eqb c "_") (":"%char :: list_ascii_of_string s)).
  - destruct (underscores_ok "000" (":"%char :: list_ascii_of_string s)); [|reflexivity].
    simpl remove_underscores.
    destruct (strip_cons ":" (remove_underscores (list_ascii_of_string s)) eq_refl) as [l' ->].
    reflexivity.
  - destruct (strip_cons ":" (list_ascii_of_string s) eq_refl) as [l' ->].
    reflexivity.
Qed.

Lemma drop_last_cons (c : ascii) (r : string) :
  r <> ""%string -> drop_last (String c r) = String c (drop_last r).
Proof.
  intros Hr. unfold drop_last. simpl list_ascii_of_string.
  destruct (rev (list_ascii_of_string r)) as [|x y] eqn:Hrev.
  - destruct r; [congruence|]. simpl in Hrev.
    destruct (rev (list_ascii_of_string r)); discriminate.
  - simpl. rewrite Hrev. simpl. rewrite rev_app_distr. reflexivity.
Qed.

(** [parse_item] maps the empty string, and any string starting with
    [':'], to [0] with one warning. *)
Lemma parse_item_zero (v : string) (w : list string) :
  v = ""%string \/ (exists r, v = String ":" r) ->
  exists msg, parse_item v w = (inr (PInt 0), w ++ [msg]).
Proof.
  intros [->|[r ->]].
  - cbv. eexists. reflexivity.
  - unfold parse_item.
    destruct (endswith "%" (String ":" r)) eqn:Hpct.
    + assert (Hr : r <> ""%string) by (intros ->; discriminate).
      rewrite (drop_last_cons ":" r Hr). simpl.
      rewrite py_float_colon. simpl. eexists. reflexivity.
    + simpl. rewrite py_int_colon. simpl. rewrite py_float_colon. simpl.
      eexists. reflexivity.
Qed.

Lemma parse_fixed_first_zero (s : string) (w h : Z) (mn mx : pynum) (lg : list string) :
  (0 <? find_char "x" s) && (0 <? find_char ":" s) = false ->
  (exists values, py_split "x" (Some 1%nat) (replace_char "," "x" s) = inr values
     /\ exists v0, nth_error values 0 = Some v0
     /\ (v0 = ""%string \/ exists r, v0 = String ":" r)) ->
  exists msg, parse_fixed s w h mn mx lg = (inr (PInt 1, PInt 1), lg ++ [msg]).
Proof.
  intros Hc (values & Hv & v0 & H0 & Hv0).
  unfold parse_fixed. rewrite Hc. unfold bind at 1, lift. rewrite Hv.
  unfold bind at 1, lift, py_index. rewrite H0.
  destruct (parse_item_zero v0 lg Hv0) as [msg Hi].
  exists msg. unfold bind at 1. rewrite Hi. reflexivity.
Qed.

(** C7.  A fixed-value spec containing both ["x"] and [":"] gives
    [(1, 1)] with a warning.  When both occur after index 0 the explicit
    test fires; when one of them is the first character, the first
    component is empty or starts with [':'], [parse_item] warns and
    returns [0], and the falsy first value gives [(1, 1)]. *)
Theorem parse_scaling_conflicting_separators (s : string) (w h : Z) (mn mx : pynum) :
  string_in s TRUE_OPTIONS = false -> startswith "auto" s = false ->
  0 <= find_char "x" s -> 0 <= find_char ":" s ->
  fst (run (parse_scaling s w h mn mx)) = inr (PInt 1, PInt 1)
  /\ snd (run (parse_scaling s w h mn mx)) <> [].
Proof.
  intros Ht Ha Hx Hc.
  assert (H : exists msgs, run (parse_scaling s w h mn mx) = (inr (PInt 1, PInt 1), msgs)
                           /\ msgs <> []).
  { unfold run, parse_scaling. rewrite Ht, Ha.
    destruct ((0 <? find_char "x" s) && (0 <? find_char ":" s)) eqn:Hboth.
    - unfold parse_fixed. rewrite Hboth. eexists. split; [reflexivity|discriminate].
    - assert (Hfirst : exists msg, parse_fixed s w h mn mx [] = (inr (PInt 1, PInt 1), [] ++ [msg])).
      { apply parse_fixed_first_zero; [assumption|].
        apply andb_false_iff in Hboth.
        destruct Hboth as [Hb|Hb]; apply Z.ltb_ge in Hb.
        - (* "x" comes first *)
          destruct (find_char_zero "x" s ltac:(lia)) as [r ->].
          simpl replace_char. unfold py_split.
          eexists. split; [reflexivity|]. simpl. eexists. split; [reflexivity|]. left. reflexivity.
        - (* ":" comes first *)
          destruct (find_char_zero ":" s ltac:(lia)) as [r ->].
          simpl replace_char. unfold py_split.
          eexists. split; [reflexivity|].
          set (t := replace_char "," "x" r).
          assert (E : split_go (S (String.length (String ":" t))) "x" (Some 1%nat) [] (String ":" t)
                      = split_go (S (String.length t)) "x" (Some 1%nat) [":"%char] t)
            by reflexivity.
          rewrite E.
          destruct (split_go_first (S (String.length t)) "x" (Some 1%nat) [":"%char] t)
            as (p & rest & Hs).
          rewrite Hs. eexists. split; [reflexivity|]. right. eexists. reflexivity. }
      destruct Hfirst as [msg ->]. eexists. split; [reflexivity|discriminate]. }
  destruct H as (msgs & -> & Hm). simpl. split; [reflexivity|exact Hm].
Qed.

Lemma parse_scaling_conflicting_separators_witness :
  fst (run (parse_scaling "x1:2" 1920 1080 MIN_SCALING MAX_SCALING)) = inr (PInt 1, PInt 1)
  /\ snd (run (parse_scaling "x1:2" 1920 1080 MIN_SCALING MAX_SCALING)) <> [].
Proof.
  apply (parse_scaling_conflicting_separators "x1:2" 1920 1080 MIN_SCALING MAX_SCALING);
    vm_compute; try reflexivity; discriminate.
Defined.

(** ** C8: [parse_simple_dict] *)

Lemma split_go_eq (el : string) (fuel : nat) (acc : list ascii) :
  (String.length el < fuel)%nat ->
  split_go fuel "=" (Some 1%nat) acc el
  = match break_at_eq el with
    | Some (k, v) => [(string_of_list_ascii (rev acc) ++ k)%string; v]
    | None => [(string_of_list_ascii (rev acc) ++ el)%string]
    end.
Proof.
  revert fuel acc. induction el as [|c el IH]; intros fuel acc Hf;
    (destruct fuel as [|fuel]; [simpl in Hf; lia|]).
  - simpl. rewrite string_app_nil_r. reflexivity.
  - cbn [split_go strip_prefix break_at_eq].
    destruct (Ascii.eqb_spec "=" c) as [<-|Hne].
    + simpl. rewrite string_app_nil_r. destruct fuel; reflexivity.
    + replace (Ascii.eqb c "=") with false
        by (symmetry; apply Ascii.eqb_neq; congruence).
      rewrite IH by (simpl in Hf; lia).
      destruct (break_at_eq el) as [[k v]|]; simpl;
        rewrite string_of_list_ascii_app, string_app_assoc; reflexivity.
Qed.

Lemma py_split_eq (el : string) :
  py_split "=" (Some 1%nat) el
  = inr (match break_at_eq el with Some (k, v) => [k; v] | None => [el] end).
Proof.
  unfold py_split. rewrite split_go_eq by lia. simpl.
  destruct (break_at_eq el) as [[k v]|]; reflexivity.
Qed.

(** [break_at_eq] splits at the first ["="]. *)
Lemma break_at_eq_first (el k v : string) :
  break_at_eq el = Some (k, v) -> el = (k ++ String "=" v)%string /\ find_char "=" k = -1.
Proof.
  revert k v. induction el as [|c el IH]; intros k v; simpl; [discriminate|].
  destruct (Ascii.eqb_spec c "=") as [->|Hne].
  - intros [= <- <-]. split; reflexivity.
  - destruct (break_at_eq el) as [[k' v']|] eqn:Hb; simpl; [|discriminate].
    intros [= <- <-]. destruct (IH k' v' eq_refl) as [-> Hf].
    split; [reflexivity|]. cbn [find_char].
    replace (Ascii.eqb "=" c) with false by (symmetry; apply Ascii.eqb_neq; congruence).
    rewrite Hf. reflexivity.
Qed.

Lemma dict_get_set (k k' : string) (v : dval) (d : dict) :
  dict_get k (dict_set k' v d) = if String.eqb k k' then Some v else dict_get k d.
Proof.
  induction d as [|[k0 v0] d IH]; simpl.
  - destruct (String.eqb k k'); reflexivity.
  - destruct (String.eqb_spec k' k0) as [<-|Hne]; simpl.
    + destruct (String.eqb k k'); reflexivity.
    + rewrite IH. destruct (String.eqb_spec k k0) as [->|_]; [|reflexivity].
      destruct (String.eqb_spec k0 k') as [->|_]; [congruence|reflexivity].
Qed.

Lemma dval_list_collected (vs : list string) : dval_list (collected vs) = vs.
Proof. destruct vs as [|v [|v' vs]]; reflexivity. Qed.

Lemma may_add_collected (d : dict) (k v : string) :
  dict_wf d -> Some (may_add d k v) = collected (dval_list (dict_get k d) ++ [v]).
Proof.
  intros Hwf. specialize (Hwf k). unfold may_add.
  destruct (dict_get k d) as [[x|xs]|]; simpl; try reflexivity.
  destruct xs as [|x [|y xs]]; simpl in Hwf; try discriminate. reflexivity.
Qed.

(** One turn of the loop on a non-empty entry. *)
Lemma parse_simple_dict_loop_cons (s el : string) (els : list string) (d : dict) (lg : list string) :
  String.eqb el "" = false ->
  parse_simple_dict_loop s (el :: els) d lg
  = match break_at_eq el with
    | Some (k, v) => parse_simple_dict_loop s els (dict_set k (may_add d k v) d) lg
    | None =>
        parse_simple_dict_loop s els d
          (lg ++ ["Warning: failed to parse dictionary option '" ++ s ++ "':";
                  " <exception>"]%string)
    end.
Proof.
  intros He. cbn [parse_simple_dict_loop]. rewrite He.
  unfold bind, try_except, lift, warn, ret. rewrite py_split_eq.
  destruct (break_at_eq el) as [[k v]|]; simpl; [reflexivity|].
  rewrite <- app_assoc. reflexivity.
Qed.

Lemma parse_simple_dict_loop_spec (s : string) (els : list string) (d : dict) (lg : list string) :
  dict_wf d ->
  exists d' lg',
    parse_simple_dict_loop s els d lg = (inr d', lg ++ lg')
    /\ dict_wf d'
    /\ List.length lg' = (2 * bad_entries els)%nat
    /\ forall k, dval_list (dict_get k d') = dval_list (dict_get k d) ++ values_for k (kv_entries els).
Proof.
  revert d lg. induction els as [|el els IH]; intros d lg Hwf.
  - exists d, []. rewrite app_nil_r. repeat split; [assumption|].
    intros k. simpl. rewrite app_nil_r. reflexivity.
  - destruct (String.eqb el "") eqn:He.
    + simpl. rewrite He. simpl. apply IH. assumption.
    + rewrite parse_simple_dict_loop_cons by assumption. simpl. rewrite He.
      destruct (break_at_eq el) as [[k' v]|] eqn:Hb.
      * set (d1 := dict_set k' (may_add d k' v) d).
        assert (Hwf1 : dict_wf d1).
        { intros k. unfold d1. rewrite dict_get_set.
          destruct (String.eqb k k'); [|apply Hwf].
          rewrite may_add_collected by assumption. rewrite dval_list_collected. reflexivity. }
        destruct (IH d1 lg Hwf1) as (d' & lg' & Hrun & Hwf' & Hlen & Hvals).
        exists d', lg'. repeat split; try assumption.
        intros k. rewrite Hvals. unfold values_for. simpl. unfold d1. rewrite dict_get_set.
        destruct (String.eqb_spec k k') as [->|Hne].
        -- rewrite !String.eqb_refl. rewrite may_add_collected by assumption.
           rewrite dval_list_collected. simpl. rewrite <- app_assoc. reflexivity.
        -- replace (String.eqb k' k) with false
             by (symmetry; apply String.eqb_neq; congruence).
           reflexivity.
      * destruct (IH d (lg ++ ["Warning: failed to parse dictionary option '" ++ s ++ "':";
                                " <exception>"]%string) Hwf)
          as (d' & lg' & Hrun & Hwf' & Hlen & Hvals).
        exists d', (["Warning: failed to parse dictionary option '" ++ s ++ "':";
                     " <exception>"]%string ++ lg').
        rewrite <- app_assoc in Hrun.
        repeat split; try assumption.
        simpl. rewrite Hlen. lia.
Qed.

(** C8 (amended).  For a non-empty separator [sep], [parse_simple_dict]
    never raises.  Each non-empty entry is split at its first ["="] only:
    the key holds no ["="] and the value keeps the rest.  An entry without
    ["="] is skipped with one warning (two [log.warn] lines) and the loop
    goes on.  The values of a key gather in input order: one value is
    stored as a string, several as the list of all of them; so
    ["a=1,b=2,a=3"] gives [{"a": ["1", "3"], "b": "2"}]. *)
Theorem parse_simple_dict_spec (s sep : string) :
  sep <> ""%string ->
  (exists els d,
      py_split sep None s = inr els
      /\ fst (run (parse_simple_dict s sep)) = inr d
      /\ (forall k v, In (k, v) (kv_entries els) ->
            exists el, In el els /\ el = (k ++ String "=" v)%string /\ find_char "=" k = -1)
      /\ List.length (snd (run (parse_simple_dict s sep))) = (2 * bad_entries els)%nat
      /\ (forall k, dict_get k d = collected (values_for k (kv_entries els))))
  /\ fst (run (parse_simple_dict "a=1,b=2,a=3" ","))
     = inr [("a", DList ["1"; "3"]); ("b", DStr "2")]%string.
Proof.
  intros Hsep. split; [|vm_compute; reflexivity].
  assert (Hsplit : exists els, py_split sep None s = inr els)
    by (unfold py_split; destruct sep; [congruence|eauto]).
  destruct Hsplit as [els Hels].
  assert (Hwf0 : dict_wf []) by (intros k; reflexivity).
  destruct (parse_simple_dict_loop_spec s els [] [] Hwf0)
    as (d & lg & Hrun & Hwf & Hlen & Hvals).
  exists els, d.
  assert (Hpd : run (parse_simple_dict s sep) = (inr d, lg)).
  { unfold run, parse_simple_dict, bind, lift. rewrite Hels. exact Hrun. }
  rewrite Hpd. simpl. repeat split; [assumption| | assumption|].
  - clear -els. induction els as [|el els IH]; simpl; [tauto|].
    destruct (String.eqb el "") eqn:He; [firstorder|].
    destruct (break_at_eq el) as [[k' v']|] eqn:Hb; [|firstorder].
    intros k v [[= <- <-]|Hin].
    + destruct (break_at_eq_first el k' v' Hb) as [Hel Hf]. eauto.
    + destruct (IH k v Hin) as (el' & Hin' & Hel'). eauto.
  - intros k. rewrite Hwf, Hvals. reflexivity.
Qed.

Lemma parse_simple_dict_spec_witness :
  ","%string <> ""%string
  /\ ((exists els d,
        py_split "," None "bad,a=1" = inr els
        /\ fst (run (parse_simple_dict "bad,a=1" ",")) = inr d
        /\ (forall k v, In (k, v) (kv_entries els) ->
              exists el, In el els /\ el = (k ++ String "=" v)%string /\ find_char "=" k = -1)
        /\ List.length (snd (run (parse_simple_dict "bad,a=1" ","))) = (2 * bad_entries els)%nat
        /\ (forall k, dict_get k d = collected (values_for k (kv_entries els))))
      /\ fst (run (parse_simple_dict "a=1,b=2,a=3" ","))
         = inr [("a", DList ["1"; "3"]); ("b", DStr "2")]%string).
Proof.
  assert (Hsep : ","%string <> ""%string) by discriminate.
  split; [exact Hsep|].
  exact (parse_simple_dict_spec "bad,a=1" "," Hsep).
Defined.

(** * Properties of the rest of the code *)

(** ** Helpers: [str(n)], [str.split] and [str.join] *)

Lemma list_ascii_of_string_app (a b : string) :
  list_ascii_of_string (a ++ b) = list_ascii_of_string a ++ list_ascii_of_string b.
Proof. induction a as [|c a IH]; simpl; [reflexivity|]. rewrite IH. reflexivity. Qed.

Lemma digit_char_spec (d : Z) :
  0 <= d < 10 -> is_digit (digit_char d) = true /\ digit_val (digit_char d) = d.
Proof.
  intros Hd. unfold is_digit, digit_val, ord, digit_char, chr.
  rewrite nat_ascii_embedding by lia.
  split; [apply andb_true_intro; split; apply Nat.leb_le; lia | lia].
Qed.

Lemma digits_value_aux_snoc (acc : Z) (l : list ascii) (c : ascii) :
  digits_value_aux acc (l ++ [c]) = 10 * digits_value_aux acc l + digit_val c.
Proof. revert acc. induction l as [|d l IH]; intros acc; simpl; [reflexivity|]. apply IH. Qed.

Lemma dec_digits_spec (fuel : nat) (n : Z) :
  0 <= n < 10 ^ Z.of_nat fuel -> (0 < fuel)%nat ->
  dec_digits fuel n <> []
  /\ Forall (fun c => is_digit c = true) (dec_digits fuel n)
  /\ digits_value (dec_digits fuel n) = n.
Proof.
  revert n. induction fuel as [|fuel IH]; intros n Hn Hf; [lia|].
  cbn [dec_digits]. destruct (n <? 10) eqn:H10.
  - apply Z.ltb_lt in H10. destruct (digit_char_spec n) as [D V]; [lia|].
    split; [discriminate|]. split; [repeat constructor; exact D|].
    unfold digits_value. simpl. rewrite V. lia.
  - apply Z.ltb_ge in H10.
    destruct fuel as [|f]; [change (10 ^ Z.of_nat 1) with 10 in Hn; lia|].
    assert (Hq : 0 <= n / 10 < 10 ^ Z.of_nat (S f)).
    { split; [apply Z.div_pos; lia|].
      apply Z.div_lt_upper_bound; [lia|].
      rewrite Nat2Z.inj_succ, Z.pow_succ_r in Hn by lia. 
      lia. }
    destruct (IH (n / 10) Hq ltac:(lia)) as (_ & F & V).
    destruct (digit_char_spec (n mod 10)) as [D V']; [apply Z.mod_pos_bound; lia|].
    split; [destruct (dec_digits (S f) (n / 10)); discriminate|].
    split; [apply Forall_app; split; [exact F|repeat constructor; exact D]|].
    unfold digits_value in *. rewrite digits_value_aux_snoc, V, V'.
    pose proof (Z.div_mod n 10). lia.
Qed.

Lemma dec_digits_length (fuel k : nat) (n : Z) :
  0 <= n < 10 ^ Z.of_nat k -> (0 < k)%nat -> (List.length (dec_digits fuel n) <= k)%nat.
Proof.
  revert n k. induction fuel as [|fuel IH]; intros n k Hn Hk; cbn [dec_digits]; [simpl; lia|].
  destruct (n <? 10) eqn:H10; [simpl; lia|].
  apply Z.ltb_ge in H10.
  destruct k as [|k]; [lia|]. destruct k as [|k]; [change (10 ^ Z.of_nat 1) with 10 in Hn; lia|].
  rewrite length_app. simpl.
  assert (Hq : 0 <= n / 10 < 10 ^ Z.of_nat (S k)).
  { split; [apply Z.div_pos; lia|].
    apply Z.div_lt_upper_bound; [lia|].
    rewrite (Nat2Z.inj_succ (S k)), Z.pow_succ_r in Hn by lia. lia. }
  specialize (IH (n / 10) (S k) Hq ltac:(lia)). lia.
Qed.

Lemma log2_fuel (n : Z) : 0 <= n -> n < 10 ^ Z.of_nat (S (Z.to_nat (Z.log2 n))).
Proof.
  intros Hn. rewrite Nat2Z.inj_succ, Z2Nat.id by apply Z.log2_nonneg.
  destruct (Z.eq_dec n 0) as [->|Hn0]; [simpl; lia|].
  destruct (Z.log2_spec n) as [_ H]; [lia|].
  eapply Z.lt_le_trans; [exact H|]. apply Z.pow_le_mono_l. lia.
Qed.

Lemma drop_while_all (p : ascii -> bool) (l : list ascii) :
  Forall (fun c => p c = false) l -> drop_while p l = l.
Proof. intros H. destruct H as [|c l Hc _]; simpl; [reflexivity|]. rewrite Hc. reflexivity. Qed.

Lemma strip_all (l : list ascii) :
  Forall (fun c => is_space c = false) l -> strip l = l.
Proof.
  intros H. unfold strip. rewrite (drop_while_all is_space l H).
  rewrite drop_while_all by (apply Forall_rev; exact H). apply rev_involutive.
Qed.

Lemma digit_not_special (c : ascii) :
  is_digit c = true ->
  is_space c = false /\ Ascii.eqb c "_" = false /\ Ascii.eqb c "-" = false
  /\ forall l, take_sign (c :: l) = (false, c :: l).
Proof.
  destruct c as [[] [] [] [] [] [] [] []]; intros H; try discriminate H;
    repeat split; reflexivity.
Qed.

Lemma underscores_ok_none (prev : ascii) (l : list ascii) :
  Ascii.eqb prev "_" = false -> Forall (fun c => Ascii.eqb c "_" = false) l ->
  underscores_ok prev l = true.
Proof.
  intros Hp H. revert prev Hp. induction H as [|c l Hc _ IH]; intros prev Hp; simpl.
  - rewrite Hp. reflexivity.
  - rewrite Hc, Hp. simpl. apply IH. exact Hc.
Qed.

Lemma remove_underscores_none (l : list ascii) :
  Forall (fun c => Ascii.eqb c "_" = false) l -> remove_underscores l = l.
Proof.
  intros H. induction H as [|c l Hc _ IH]; simpl; [reflexivity|]. rewrite Hc. simpl. rewrite IH. reflexivity.
Qed.

(** The digits of [str(n)]. *)
Lemma str_of_Z_digits (n : Z) :
  exists ds, str_of_Z n = string_of_list_ascii (if n <? 0 then "-"%char :: ds else ds)
    /\ ds <> [] /\ Forall (fun c => is_digit c = true) ds /\ digits_value ds = Z.abs n
    /\ (Z.abs n < 10 ^ 4300 -> (List.length ds <= 4300)%nat).
Proof.
  unfold str_of_Z. eexists. split; [reflexivity|].
  destruct (dec_digits_spec (S (Z.to_nat (Z.log2 (Z.abs n)))) (Z.abs n)) as (N & F & V).
  - split; [lia|]. apply log2_fuel. lia.
  - lia.
  - repeat split; try assumption. intros Hb.
    apply dec_digits_length; [|lia]. change (Z.of_nat 4300) with 4300. lia.
Qed.

Lemma py_int_str_of_Z (n : Z) : Z.abs n < 10 ^ 4300 -> py_int (str_of_Z n) = inr n.
Proof.
  intros Hb. destruct (str_of_Z_digits n) as (ds & -> & N & F & V & L).
  specialize (L Hb). unfold py_int. rewrite list_ascii_of_string_of_list_ascii.
  assert (Fs : Forall (fun c => is_space c = false /\ Ascii.eqb c "_" = false) ds).
  { eapply Forall_impl; [|exact F]. intros c Hc. apply digit_not_special in Hc. tauto. }
  destruct ds as [|d ds']; [congruence|].
  pose proof (Forall_inv F) as Hd. apply digit_not_special in Hd.
  assert (Hb' : forallb (fun c => is_digit c || Ascii.eqb c "_") (d :: ds') = true).
  { apply forallb_forall. intros c Hc. rewrite Forall_forall in F. rewrite F by exact Hc. reflexivity. }
  assert (Hu : underscores_ok "000"%char (d :: ds') = true).
  { apply underscores_ok_none; [reflexivity|]. eapply Forall_impl; [|exact Fs]. tauto. }
  assert (Hr : remove_underscores (d :: ds') = d :: ds').
  { apply remove_underscores_none. eapply Forall_impl; [|exact Fs]. tauto. }
  destruct (n <? 0) eqn:Hn.
  - rewrite strip_all by (constructor; [reflexivity|eapply Forall_impl; [|exact Fs]; tauto]).
    cbn [take_sign]. rewrite Hb', Hu, Hr. simpl orb. 
    destruct (max_str_digits <? List.length (d :: ds'))%nat eqn:Hl;
      [apply Nat.ltb_lt in Hl; unfold max_str_digits in Hl; lia|].
    rewrite V. apply Z.ltb_lt in Hn. f_equal. lia.
  - rewrite strip_all by (eapply Forall_impl; [|exact Fs]; tauto).
    destruct Hd as (_ & _ & _ & ->). rewrite Hb', Hu, Hr. simpl orb.
    destruct (max_str_digits <? List.length (d :: ds'))%nat eqn:Hl;
      [apply Nat.ltb_lt in Hl; unfold max_str_digits in Hl; lia|].
    rewrite V. apply Z.ltb_ge in Hn. f_equal. lia.
Qed.

(** [from0to100] on the decimal string of an int [n]: [n] when
    [0 <= n <= 100], [ValueError] otherwise (within Python's limit of
    4300 digits for [int()] of a string). *)
Lemma from0to100_str (n : Z) :
  Z.abs n < 10 ^ 4300 ->
  from0to100 (AStr (str_of_Z n)) = if (0 <=? n) && (n <=? 100) then inr n else inl ValueError.
Proof.
  intros Hb. unfold from0to100, intrangevalidator. cbn [int_of_arg].
  rewrite py_int_str_of_Z by exact Hb. cbn [rbind].
  destruct (Z.ltb_spec n 0), (Z.ltb_spec 100 n), (Z.leb_spec 0 n), (Z.leb_spec n 100);
    simpl; first [reflexivity | lia].
Qed.

Lemma has_char_app (c : ascii) (a b : string) :
  has_char c (a ++ b) = has_char c a || has_char c b.
Proof. unfold has_char. rewrite list_ascii_of_string_app. apply existsb_app. Qed.

Lemma str_of_Z_chars (n : Z) (c : ascii) :
  is_digit c = false -> Ascii.eqb c "-" = false -> has_char c (str_of_Z n) = false.
Proof.
  intros Hd Hm. destruct (str_of_Z_digits n) as (ds & -> & _ & F & _).
  unfold has_char. rewrite list_ascii_of_string_of_list_ascii.
  apply not_true_iff_false. intros Hx. apply existsb_exists in Hx as (d & Hin & Hcd).
  apply Ascii.eqb_eq in Hcd. subst d.
  assert (Hi2 : In c ds \/ c = "-"%char).
  { destruct (n <? 0); [destruct Hin as [<-|Hin]; auto|auto]. }
  destruct Hi2 as [Hi2 | ->]; [|discriminate].
  rewrite Forall_forall in F. rewrite F in Hd by exact Hi2. discriminate.
Qed.

Lemma str_of_Z_nonempty (n : Z) : str_of_Z n <> EmptyString.
Proof.
  destruct (str_of_Z_digits n) as (ds & -> & N & _).
  destruct (n <? 0); [discriminate|]. destruct ds; [congruence|discriminate].
Qed.

Lemma replace_char_absent (o n : ascii) (s : string) :
  has_char o s = false -> replace_char o n s = s.
Proof.
  unfold has_char. induction s as [|c s IH]; simpl; [reflexivity|].
  intros H. apply orb_false_iff in H as [H1 H2].
  rewrite Ascii.eqb_sym, H1, IH by exact H2. reflexivity.
Qed.

Lemma endswith_app (c : ascii) (a b : string) :
  b <> EmptyString -> endswith c (a ++ b) = endswith c b.
Proof.
  intros Hb. unfold endswith. rewrite list_ascii_of_string_app, rev_app_distr.
  destruct b as [|d b]; [congruence|]. simpl.
  destruct (rev (list_ascii_of_string b)); reflexivity.
Qed.

Lemma endswith_has_char (c : ascii) (s : string) :
  endswith c s = true -> has_char c s = true.
Proof.
  unfold endswith, has_char. intros H. apply existsb_exists.
  destruct (rev (list_ascii_of_string s)) as [|d r] eqn:E; [discriminate|].
  exists d. split; [|exact H].
  apply in_rev. rewrite E. left. reflexivity.
Qed.

Lemma string_length_app (a b : string) :
  String.length (a ++ b) = (String.length a + String.length b)%nat.
Proof. induction a as [|c a IH]; simpl; [reflexivity|]. rewrite IH. reflexivity. Qed.

(** One-character separators. *)
Lemma split_go_char_last (c : ascii) (fuel : nat) (m : option nat) (acc : list ascii) (x : string) :
  has_char c x = false -> (String.length x < fuel)%nat ->
  split_go fuel (String c EmptyString) m acc x = [(string_of_list_ascii (rev acc) ++ x)%string].
Proof.
  revert fuel acc. induction x as [|d x IH]; intros fuel acc Hc Hf;
    (destruct fuel as [|fuel]; [simpl in Hf; lia|]).
  - cbn [split_go strip_prefix]. rewrite string_app_nil_r.
    destruct m as [[|k]|]; rewrite ?string_app_nil_r; reflexivity.
  - unfold has_char in Hc. cbn [list_ascii_of_string existsb] in Hc.
    apply orb_false_iff in Hc as [Hcd Hc].
    cbn [split_go strip_prefix]. rewrite Hcd.
    rewrite IH by (exact Hc || (simpl in Hf; lia)).
    cbn [rev]. rewrite string_of_list_ascii_app, string_app_assoc.
    destruct m as [[|k]|]; reflexivity.
Qed.

Lemma split_go_char (c : ascii) (fuel : nat) (m : option nat) (acc : list ascii) (x rest : string) :
  has_char c x = false -> m <> Some O -> (String.length x < fuel)%nat ->
  split_go fuel (String c EmptyString) m acc (x ++ String c rest)
  = (string_of_list_ascii (rev acc) ++ x)%string
    :: split_go (fuel - S (String.length x)) (String c EmptyString) (option_map pred m) [] rest.
Proof.
  intros Hc Hm. revert fuel acc Hc. induction x as [|d x IH]; intros fuel acc Hc Hf;
    (destruct fuel as [|fuel]; [simpl in Hf; lia|]).
  - cbn [split_go strip_prefix String.append]. rewrite Ascii.eqb_refl, string_app_nil_r.
    simpl String.length. replace (S fuel - 1)%nat with fuel by lia.
    destruct m as [[|k]|]; [congruence|reflexivity|reflexivity].
  - unfold has_char in Hc. cbn [list_ascii_of_string existsb] in Hc.
    apply orb_false_iff in Hc as [Hcd Hc].
    cbn [split_go strip_prefix String.append]. rewrite Hcd.
    assert (E : split_go fuel (String c EmptyString) m (d :: acc) (x ++ String c rest)
                = (string_of_list_ascii (rev (d :: acc)) ++ x)%string
                  :: split_go (fuel - S (String.length x)) (String c EmptyString) (option_map pred m) [] rest)
      by (apply IH; [exact Hc | simpl in Hf; lia]).
    destruct m as [[|k]|]; [congruence| |];
      rewrite E; cbn [rev String.length]; rewrite string_of_list_ascii_app, string_app_assoc;
      reflexivity.
Qed.

Lemma py_join_cons (sep x : string) (xs : list string) :
  xs <> [] -> py_join sep (x :: xs) = (x ++ sep ++ py_join sep xs)%string.
Proof. destruct xs; [congruence|reflexivity]. Qed.


(** [sep.join(xs).split(sep)] gives [xs] back when no item holds [sep]. *)
Lemma split_go_join (c : ascii) (xs : list string) (fuel : nat) :
  xs <> [] -> Forall (fun x => has_char c x = false) xs ->
  (String.length (py_join (String c EmptyString) xs) < fuel)%nat ->
  split_go fuel (String c EmptyString) None [] (py_join (String c EmptyString) xs) = xs.
Proof.
  intros Hne Hall. revert fuel Hne. induction Hall as [|x xs Hx Hxs IH]; intros fuel Hne Hf; [congruence|].
  destruct xs as [|y ys].
  - simpl in *. rewrite split_go_char_last by assumption. reflexivity.
  - rewrite py_join_cons in * by discriminate.
    cbn [String.append] in *.
    rewrite split_go_char by (try assumption; try discriminate;
      rewrite string_length_app in Hf; lia).
    simpl option_map. rewrite IH by (try discriminate;
      rewrite string_length_app in Hf; cbn [String.length] in Hf; lia). reflexivity.
Qed.

Lemma split_go_some0 (fuel : nat) (sep s : string) :
  split_go fuel sep (Some O) [] s = [s].
Proof. destruct fuel; reflexivity. Qed.

Lemma str_of_Z_not_endswith (n : Z) (c : ascii) :
  is_digit c = false -> Ascii.eqb c "-" = false -> endswith c (str_of_Z n) = false.
Proof.
  intros Hd Hm. apply not_true_iff_false. intros E. apply endswith_has_char in E.
  rewrite str_of_Z_chars in E by assumption. discriminate.
Qed.

(** [parse_scaling_value] on ["b"] gives [(1, b)] and on ["a:b"] gives
    [(a, b)] for positive [a <= b]; every other int pair fails its assert. *)
Lemma parse_scaling_value_str (a b : Z) :
  Z.abs a < 10 ^ 4300 -> Z.abs b < 10 ^ 4300 ->
  parse_scaling_value (str_of_Z b)
  = (if 0 <? b then inr (Some (1, b)) else inl AssertionError)
  /\ parse_scaling_value (str_of_Z a ++ ":" ++ str_of_Z b)
     = if (0 <? a) && (0 <? b) then
         if a <=? b then inr (Some (a, b)) else inl AssertionError
       else inl AssertionError.
Proof.
  intros Ha Hb.
  assert (Nb : forall c, is_digit c = false -> Ascii.eqb c "-" = false ->
                has_char c (str_of_Z b) = false) by (intros; apply str_of_Z_chars; assumption).
  assert (Na : forall c, is_digit c = false -> Ascii.eqb c "-" = false ->
                has_char c (str_of_Z a) = false) by (intros; apply str_of_Z_chars; assumption).
  split.
  - unfold parse_scaling_value.
    destruct (String.eqb_spec (str_of_Z b) "") as [E|_]; [exfalso; exact (str_of_Z_nonempty b E)|].
    rewrite str_of_Z_not_endswith by reflexivity.
    unfold ratio_parts. rewrite (replace_char_absent "/" ":" (str_of_Z b)) by (apply Nb; reflexivity).
    rewrite replace_char_absent by (apply Nb; reflexivity).
    unfold py_split. rewrite split_go_char_last by (first [apply Nb; reflexivity | lia]).
    cbn [rbind map_int rev string_of_list_ascii String.append]. rewrite py_int_str_of_Z by exact Hb. cbn [rbind assert_positive py_assert].
    destruct (0 <? b); reflexivity.
  - unfold parse_scaling_value.
    destruct (String.eqb_spec (str_of_Z a ++ ":" ++ str_of_Z b) "") as [E|_].
    { exfalso. destruct (str_of_Z a); discriminate. }
    change (":" ++ str_of_Z b)%string with (String ":" EmptyString ++ str_of_Z b)%string.
    rewrite !endswith_app by (first [apply str_of_Z_nonempty | discriminate]).
    rewrite str_of_Z_not_endswith by reflexivity.
    unfold ratio_parts.
    assert (Hs : forall c, is_digit c = false -> Ascii.eqb c "-" = false -> Ascii.eqb c ":" = false ->
                 has_char c (str_of_Z a ++ String ":" EmptyString ++ str_of_Z b) = false).
    { intros c H1 H2 H3. rewrite !has_char_app, Na, Nb by assumption.
      unfold has_char. simpl. rewrite H3. reflexivity. }
    rewrite (replace_char_absent "/" ":") by (apply Hs; reflexivity).
    rewrite replace_char_absent by (apply Hs; reflexivity).
    unfold py_split. cbn [String.append].
    rewrite split_go_char by (try apply Na; try reflexivity; try discriminate;
      rewrite string_length_app; lia).
    cbn [option_map pred]. rewrite split_go_some0.
    cbn [rbind map_int rev string_of_list_ascii String.append]. rewrite !py_int_str_of_Z by assumption.
    cbn [rbind assert_positive py_assert].
    destruct (0 <? a), (0 <? b); simpl; [destruct (a <=? b)|..]; reflexivity.
Qed.

Lemma scale_filter_keys (cmp : Z -> Z -> bool) (opts : list pynum) (ks : list Z)
    (scaling : pynum) (k : Z) :
  Forall2 (fun v kv => r4cmp v (PInt 10) = inr kv) opts ks ->
  r4cmp scaling (PInt 10) = inr k ->
  scale_filter cmp opts scaling = inr (map fst (filter (fun p => cmp (snd p) k) (combine opts ks))).
Proof.
  intros H Hk. induction H as [|v kv opts ks Hv _ IH]; [reflexivity|].
  cbn [scale_filter combine filter]. rewrite Hv, Hk. cbn [rbind]. rewrite IH. cbn [rbind snd].
  destruct (cmp kv k); reflexivity.
Qed.

Lemma filter_none {A} (f : A -> bool) (l : list A) :
  (forall x, In x l -> f x = false) -> filter f l = [].
Proof.
  induction l as [|x l IH]; intros H; [reflexivity|]. simpl. rewrite H by (left; reflexivity).
  apply IH. intros y Hy. apply H. right. exact Hy.
Qed.

Lemma filter_every {A} (f : A -> bool) (l : list A) :
  (forall x, In x l -> f x = true) -> filter f l = l.
Proof. intros H. apply forallb_filter_id, forallb_forall. exact H. Qed.

Lemma sorted_keys_partition {A} (l : list (A * Z)) (k : Z) :
  StronglySorted (fun p q => snd p < snd q) l ->
  l = filter (fun p => Z.ltb (snd p) k) l ++ filter (fun p => Z.eqb (snd p) k) l
      ++ filter (fun p => Z.ltb k (snd p)) l
  /\ (List.length (filter (fun p => Z.eqb (snd p) k) l) <= 1)%nat.
Proof.
  intros H. induction H as [|[a ka] l Hs IH Hall]; [split; [reflexivity | simpl; lia]|].
  destruct IH as [IH1 IH2]. rewrite Forall_forall in Hall. cbn [filter snd] in *.
  destruct (Z.ltb_spec ka k) as [Hlt|Hge].
  - replace (ka =? k) with false by (symmetry; apply Z.eqb_neq; lia).
    replace (k <? ka) with false by (symmetry; apply Z.ltb_ge; lia).
    split; [simpl; f_equal; exact IH1 | exact IH2].
  - assert (Hl : forall x, In x l -> k < snd x) by (intros x Hx; specialize (Hall x Hx); simpl in Hall; lia).
    rewrite (filter_none (fun p => Z.ltb (snd p) k) l) by (intros x Hx; apply Z.ltb_ge; specialize (Hl x Hx); lia).
    rewrite (filter_none (fun p => Z.eqb (snd p) k) l) by (intros x Hx; apply Z.eqb_neq; specialize (Hl x Hx); lia).
    rewrite (filter_every (fun p => Z.ltb k (snd p)) l) by (intros x Hx; apply Z.ltb_lt; exact (Hl x Hx)).
    destruct (Z.eqb_spec ka k) as [Heq|Hne].
    + replace (k <? ka) with false by (symmetry; apply Z.ltb_ge; lia). split; reflexivity.
    + replace (k <? ka) with true by (symmetry; apply Z.ltb_lt; lia). split; [reflexivity|simpl; lia].
Qed.

Lemma Forall2_combine_In {A B} (R : A -> B -> Prop) (l1 : list A) (l2 : list B) (p : A * B) :
  Forall2 R l1 l2 -> In p (combine l1 l2) -> R (fst p) (snd p).
Proof.
  intros H. induction H as [|x y l1 l2 Hxy _ IH]; simpl; [tauto|].
  intros [<-|Hin]; [exact Hxy|exact (IH Hin)].
Qed.

(** Over the default [SCALING_OPTIONS], [scaledown_value] and
    [scaleup_value] split the options around the rounded scaling [k]: the
    smaller ones, at most one equal one, and the larger ones, in order. *)
Lemma scale_values_partition (opts : list pynum) (scaling : pynum) (k : Z) :
  SCALING_OPTIONS_of default_scaling_options = inr opts ->
  r4cmp scaling (PInt 10) = inr k ->
  exists down mid up,
    scaledown_value opts scaling = inr down
    /\ scaleup_value opts scaling = inr up
    /\ opts = down ++ mid ++ up
    /\ (List.length mid <= 1)%nat
    /\ Forall (fun v => exists a, r4cmp v (PInt 10) = inr a /\ a < k) down
    /\ Forall (fun v => r4cmp v (PInt 10) = inr k) mid
    /\ Forall (fun v => exists a, r4cmp v (PInt 10) = inr a /\ k < a) up.
Proof.
  intros Hopts Hk. vm_compute in Hopts. injection Hopts as <-.
  set (ks := [2; 5; 7; 10; 12; 15; 20; 30; 40; 50]).
  match goal with |- context [scaledown_value ?o _] => set (opts := o) end.
  assert (HF : Forall2 (fun v kv => r4cmp v (PInt 10) = inr kv) opts ks)
    by (repeat constructor).
  assert (HS : StronglySorted (fun p q => snd p < snd q) (combine opts ks))
    by (repeat constructor; simpl; lia).
  unfold scaledown_value, scaleup_value.
  rewrite !(scale_filter_keys _ opts ks scaling k HF Hk).
  destruct (sorted_keys_partition (combine opts ks) k HS) as [E L].
  do 3 eexists. split; [reflexivity|]. split; [reflexivity|].
  split; [|split; [rewrite length_map; exact L|]].
  { rewrite <- !map_app, <- E. clear. reflexivity. }
  assert (Hk' : forall (f : Z -> bool) (P : Z -> Prop),
             (forall a, f a = true -> P a) ->
             Forall (fun v => exists a, r4cmp v (PInt 10) = inr a /\ P a)
               (map fst (filter (fun p => f (snd p)) (combine opts ks)))).
  { intros f P HP. apply Forall_forall. intros v Hv.
    apply in_map_iff in Hv as (p & <- & Hp). apply filter_In in Hp as [Hp Hf].
    exists (snd p). split; [exact (Forall2_combine_In _ _ _ p HF Hp)|exact (HP _ Hf)]. }
  split; [apply (Hk' (fun a => Z.ltb a k)); intros a Ha; apply Z.ltb_lt; exact Ha|].
  split; [|apply (Hk' (fun a => Z.ltb k a)); intros a Ha; apply Z.ltb_lt; exact Ha].
  eapply Forall_impl; [|apply (Hk' (fun a => Z.eqb a k) (fun a => a = k)); intros a Ha; apply Z.eqb_eq; exact Ha].
  intros v (a & Ha & ->). exact Ha.
Qed.

Lemma break_at_eq_app (k v : string) :
  has_char "=" k = false -> break_at_eq (k ++ String "=" v) = Some (k, v).
Proof.
  unfold has_char. induction k as [|c k IH]; intros H; [reflexivity|].
  cbn [list_ascii_of_string existsb] in H. apply orb_false_iff in H as [H1 H2].
  cbn [String.append break_at_eq]. rewrite Ascii.eqb_sym, H1, IH by exact H2. reflexivity.
Qed.

Lemma dict_get_app (k : string) (d1 d2 : dict) :
  dict_get k (d1 ++ d2) = match dict_get k d1 with None => dict_get k d2 | r => r end.
Proof.
  induction d1 as [|[k' v'] d1 IH]; simpl; [reflexivity|].
  destruct (String.eqb k k'); [reflexivity|exact IH].
Qed.

Lemma dict_set_new (k : string) (v : dval) (d : dict) :
  dict_get k d = None -> dict_set k v d = d ++ [(k, v)].
Proof.
  induction d as [|[k' v'] d IH]; simpl; [reflexivity|].
  destruct (String.eqb k k'); [discriminate|]. intros H. rewrite IH by exact H. reflexivity.
Qed.

Lemma parse_simple_dict_loop_fresh (s : string) (kvs : list (string * string)) (d : dict) (lg : list string) :
  NoDup (map fst kvs) ->
  (forall kv, In kv kvs -> dict_get (fst kv) d = None) ->
  Forall (fun kv => has_char "=" (fst kv) = false) kvs ->
  parse_simple_dict_loop s (map kv_entry kvs) d lg
  = (inr (d ++ map (fun kv => (fst kv, DStr (snd kv))) kvs), lg).
Proof.
  revert d. induction kvs as [|[k v] kvs IH]; intros d Hnd Hfresh Heq.
  - simpl. rewrite app_nil_r. reflexivity.
  - cbn [map]. inversion Hnd as [|? ? Hnin Hnd']. inversion Heq as [|? ? Hk Heq'].
    rewrite parse_simple_dict_loop_cons by (unfold kv_entry; destruct k; reflexivity).
    unfold kv_entry at 1. cbn [fst snd] in *. change ("=" ++ v)%string with (String "=" v). rewrite break_at_eq_app by exact Hk.
    pose proof (Hfresh (k, v) (or_introl eq_refl)) as Hkd. cbn [fst] in Hkd.
    unfold may_add. rewrite Hkd, dict_set_new by exact Hkd.
    rewrite IH; [rewrite <- app_assoc; reflexivity|exact Hnd'| |exact Heq'].
    intros kv Hkv. rewrite dict_get_app, (Hfresh kv) by (right; exact Hkv). simpl.
    destruct (String.eqb_spec (fst kv) k) as [E|_]; [|reflexivity].
    exfalso. apply Hnin. rewrite <- E. apply in_map. exact Hkv.
Qed.

(** [parse_simple_dict] reads back the entries ["k=v"] joined by a
    one-character separator, for distinct keys without ["="] or the
    separator and values without the separator. *)
Lemma parse_simple_dict_join (c : ascii) (kvs : list (string * string)) :
  Ascii.eqb c "=" = false ->
  NoDup (map fst kvs) ->
  Forall (fun kv => has_char "=" (fst kv) = false /\ has_char c (fst kv) = false
                    /\ has_char c (snd kv) = false) kvs ->
  run (parse_simple_dict (py_join (String c EmptyString) (map kv_entry kvs)) (String c EmptyString))
  = (inr (map (fun kv => (fst kv, DStr (snd kv))) kvs), []).
Proof.
  intros Hc Hnd Hall. destruct kvs as [|kv kvs]; [reflexivity|].
  unfold run, parse_simple_dict, bind, lift, py_split.
  rewrite split_go_join.
  - apply parse_simple_dict_loop_fresh; [exact Hnd|intros; reflexivity|].
    eapply Forall_impl; [|exact Hall]. intros ? H; apply H.
  - discriminate.
  - apply Forall_map. eapply Forall_impl; [|exact Hall]. intros [k v] (_ & H1 & H2).
    unfold kv_entry. cbn [fst snd] in *. rewrite !has_char_app, H1, H2.
    unfold has_char. simpl. rewrite Hc. reflexivity.
  - lia.
Qed.


Lemma parse_limits_loop_spec (limp : list string) (limits : list limit) (lg : list string) :
  exists lg', parse_limits_loop limp limits lg = (inr (limits ++ good_limits limp), lg ++ lg')
    /\ List.length lg' = (3 * bad_limits limp)%nat.
Proof.
  revert limits lg. induction limp as [|l limp IH]; intros limits lg.
  - exists []. rewrite !app_nil_r. split; reflexivity.
  - cbn [parse_limits_loop good_limits bad_limits].
    unfold bind at 1, try_except, lift, ret, warn, bind.
    destruct (parse_limit l) as [e|r]; cbn [catch_any].
    + rewrite <- !app_assoc. cbn [app].
      destruct (IH limits (lg ++ ["Warning: failed to parse limit string '" ++ l ++ "':";
                                  " <exception>"; " should use the format WIDTHxHEIGTH:SCALINGVALUE"]%string))
        as (lg' & E & L).
      exists (["Warning: failed to parse limit string '" ++ l ++ "':";
               " <exception>"; " should use the format WIDTHxHEIGTH:SCALINGVALUE"]%string ++ lg').
      rewrite <- app_assoc in E. split; [exact E|]. rewrite length_app, L. simpl. lia.
    + destruct (IH (limits ++ [r]) lg) as (lg' & E & L). exists lg'.
      rewrite <- app_assoc in E. split; [exact E|exact L].
Qed.

Lemma slice_from_auto (t : string) : slice_from 5 ("auto:" ++ t) = t.
Proof.
  unfold slice_from. cbn. rewrite Nat.sub_0_r.
  induction t as [|c t IH]; simpl; [reflexivity|]. f_equal. exact IH.
Qed.

(** [parse_scaling("auto:" + t)] matches the screen against the
    well-formed limits of [t] and logs three lines per malformed one. *)
Lemma parse_scaling_auto_custom (t : string) (w h : Z) (mn mx : pynum) (limp : list string) :
  py_split "," None t = inr limp ->
  exists lg,
    run (parse_scaling ("auto:" ++ t) w h mn mx)
    = (inr (match_limits w h (good_limits limp)), lg)
    /\ List.length lg = (3 * bad_limits limp)%nat.
Proof.
  intros Hs. unfold parse_scaling.
  assert (Ha : startswith "auto" ("auto:" ++ t) = true) by reflexivity.
  destruct (string_in ("auto:" ++ t) TRUE_OPTIONS) eqn:Ht.
  { apply true_options_not_auto in Ht. congruence. }
  rewrite Ha. unfold auto_limits. replace (startswith "auto:" ("auto:" ++ t)) with true by (destruct t; reflexivity).
  rewrite slice_from_auto, Hs. cbv iota.
  destruct (parse_limits_loop_spec limp [] []) as (lg & E & L).
  exists lg. unfold run, bind at 1, bind at 1, lift. simpl in E |- *.
  rewrite E. split; [reflexivity|exact L].
Qed.

(** ** [xpra/platform/posix/keyboard.py] *)

Lemma string_in_app_last (k : string) (l : list string) : string_in k (l ++ [k]) = true.
Proof. induction l as [|x l IH]; simpl; [rewrite String.eqb_refl; reflexivity|rewrite IH, orb_true_r; reflexivity]. Qed.

Lemma first_time_seen (k : string) (seen : list string) :
  string_in k (snd (first_time k seen)) = true.
Proof.
  unfold first_time. destruct (string_in k seen) eqn:E; [exact E|apply string_in_app_last].
Qed.

Lemma assoc_get_set {V} (k k' : string) (v : V) (d : list (string * V)) :
  assoc_get k (assoc_set k' v d) = if String.eqb k k' then Some v else assoc_get k d.
Proof.
  induction d as [|[k0 v0] d IH]; simpl.
  - destruct (String.eqb k k'); reflexivity.
  - destruct (String.eqb_spec k' k0) as [<-|Hne]; simpl.
    + destruct (String.eqb k k'); reflexivity.
    + rewrite IH. destruct (String.eqb_spec k k0) as [->|_]; [|reflexivity].
      destruct (String.eqb_spec k0 k') as [->|_]; [congruence|reflexivity].
Qed.

Lemma assoc_set_new {V} (k : string) (v : V) (d : list (string * V)) :
  assoc_get k d = None -> assoc_set k v d = d ++ [(k, v)].
Proof.
  induction d as [|[k' v'] d IH]; simpl; [reflexivity|].
  destruct (String.eqb k k'); [discriminate|]. intros H. rewrite IH by exact H. reflexivity.
Qed.

Lemma store_loop_get (repr : json -> string) (vals : list json) (srcs : list (string * Z)) (layout : string) :
  assoc_get layout (fst (store_loop repr vals srcs))
  = last_index layout (parsed_prefix repr vals) (assoc_get layout srcs).
Proof.
  revert srcs. induction vals as [|v vals IH]; intros srcs; [reflexivity|].
  cbn [store_loop parsed_prefix]. destruct (input_source_entry repr v) as [[l i]|]; [|reflexivity].
  rewrite IH, assoc_get_set. unfold last_index. cbn [fold_left fst snd].
  rewrite String.eqb_sym. reflexivity.
Qed.

Lemma store_loop_complete (repr : json -> string) (vals : list json) (srcs : list (string * Z)) :
  snd (store_loop repr vals srcs) = true <-> List.length (parsed_prefix repr vals) = List.length vals.
Proof.
  revert srcs. induction vals as [|v vals IH]; intros srcs; [simpl; tauto|].
  cbn [store_loop parsed_prefix]. destruct (input_source_entry repr v) as [[l i]|].
  - rewrite IH. simpl. lia.
  - simpl. split; [discriminate|lia].
Qed.

(** An input source whose ["id"] is a layout without ["+"], alone or
    followed by ["+variant"], is stored under that layout with its
    ["index"]. *)
Theorem input_source_entry_layout (repr : json -> string) (layout_info : json) (i : Z)
    (l suffix : string) :
  has_char "+" l = false ->
  (suffix = EmptyString \/ exists v, suffix = String "+" v) ->
  json_item layout_info "index" = Some (JInt i) ->
  json_item layout_info "id" = Some (JStr (l ++ suffix)) ->
  input_source_entry repr layout_info = Some (l, i).
Proof.
  intros Hl Hs Hi Hid. unfold input_source_entry. rewrite Hi. cbn [json_int]. rewrite Hid.
  cbn [json_str]. unfold py_split.
  destruct Hs as [->|[v ->]].
  - rewrite string_app_nil_r, split_go_char_last by (exact Hl || lia). reflexivity.
  - rewrite split_go_char by (try exact Hl; try discriminate; rewrite string_length_app; simpl; lia).
    reflexivity.
Qed.

(** After [_store_input_sources] on a dict of input sources,
    [set_platform_layout(layout)] activates the index of the last entry of
    that layout read before the first entry that raises, else the index
    stored before; the call completes iff no entry raises. *)
Theorem store_input_sources_then_set_platform_layout (repr : json -> string)
    (srcs : list (string * Z)) (input_sources : list (string * json)) (layout : string) :
  let vals := map snd (json_dict input_sources) in
  set_platform_layout (fst (store_input_sources repr (JObj input_sources) srcs)) layout
  = option_map activate_cmd
      (last_index layout (parsed_prefix repr vals) (assoc_get layout srcs))
  /\ (snd (store_input_sources repr (JObj input_sources) srcs) = true
      <-> List.length (parsed_prefix repr vals) = List.length vals).
Proof.
  cbv zeta. split.
  - unfold set_platform_layout, store_input_sources. rewrite store_loop_get.
    destruct (last_index _ _ _); reflexivity.
  - apply store_loop_complete.
Qed.

Lemma fold_assoc_set_get (modifier k : string) (keys : list (Z * string)) (d : list (string * string)) :
  assoc_get k (fold_left (fun d key => assoc_set (snd key) modifier d) keys d)
  = if existsb (fun key => String.eqb (snd key) k) keys then Some modifier else assoc_get k d.
Proof.
  revert d. induction keys as [|key keys IH]; intros d; [reflexivity|].
  cbn [fold_left existsb]. rewrite IH, assoc_get_set, (String.eqb_sym k (snd key)).
  destruct (String.eqb (snd key) k), (existsb _ keys); reflexivity.
Qed.

Lemma meanings_loop_get (k : string) (mm : list (string * list (Z * string)))
    (d : list (string * string)) :
  assoc_get k (meanings_loop mm d)
  = fold_left (fun acc e => if existsb (fun key => String.eqb (snd key) k) (snd e)
                            then Some (fst e) else acc) mm (assoc_get k d).
Proof.
  revert d. induction mm as [|[modifier keys] mm IH]; intros d; [reflexivity|].
  cbn [meanings_loop fold_left fst snd]. rewrite IH, fold_assoc_set_get. reflexivity.
Qed.

(** With X11 bindings, [do_get_keymap_modifiers] maps each key name to
    the modifier of the last mapping that lists it, and reports the
    modifier of ["Num_Lock"] (if any and non-empty) as missing. *)
Theorem do_get_keymap_modifiers_bindings (wayland : bool) (b : x11_bindings) (seen : list string) :
  let '(r, seen', lg) := do_get_keymap_modifiers wayland (Some b) seen in
  let '(meanings, unknown, mod_missing) := r in
  (forall k, assoc_get k meanings = last_modifier k (modifier_mappings b))
  /\ unknown = []
  /\ mod_missing = match last_modifier "Num_Lock" (modifier_mappings b) with
                   | Some m => if String.eqb m "" then [] else [m]
                   | None => []
                   end
  /\ seen' = seen /\ lg = [].
Proof.
  unfold do_get_keymap_modifiers, last_modifier.
  destruct (modifier_mappings b) as [|e mm] eqn:E.
  - repeat split.
  - rewrite <- E. split; [|split; [reflexivity|split; [|split; reflexivity]]].
    + intros k. apply meanings_loop_get.
    + rewrite meanings_loop_get. reflexivity.
Qed.

(** Under Wayland without bindings, [do_get_keymap_modifiers] always
    reports ["mod2"] as missing and warns only the first time. *)
Theorem do_get_keymap_modifiers_wayland (seen : list string) :
  let '(r1, seen1, lg1) := do_get_keymap_modifiers true None seen in
  let '(r2, seen2, lg2) := do_get_keymap_modifiers true None seen1 in
  r1 = ([], [], ["mod2"%string]) /\ r2 = r1 /\ seen2 = seen1 /\ lg2 = []
  /\ (lg1 <> [] <-> string_in "wayland-keymap"%string seen = false).
Proof.
  pose proof (first_time_seen "wayland-keymap"%string seen) as H.
  unfold do_get_keymap_modifiers at 1.
  unfold first_time in *. destruct (string_in "wayland-keymap"%string seen) eqn:E; cbn [snd] in H.
  - unfold do_get_keymap_modifiers, first_time. rewrite E.
    repeat split; try reflexivity; [intros Hc; exfalso; apply Hc; reflexivity|discriminate].
  - unfold do_get_keymap_modifiers, first_time. rewrite H.
    repeat split; try reflexivity. discriminate.
Qed.


(** [get_keyboard_repeat] returns [(a, b)] exactly when the rate is the
    pair [[a, b]], and logs an error exactly when the query raises or
    returns a non-empty value that is not a pair; without bindings it
    returns [None] silently. *)
Theorem get_keyboard_repeat_spec (kb : option x11_bindings) :
  match kb with
  | None => get_keyboard_repeat kb = (None, [])
  | Some b =>
      (forall x y, fst (get_keyboard_repeat kb) = Some (x, y)
                   <-> key_repeat_rate b = RateValue (Some [x; y]))
      /\ (snd (get_keyboard_repeat kb) <> []
          <-> key_repeat_rate b = RateRaises
              \/ exists v, key_repeat_rate b = RateValue (Some v) /\ v <> []
                           /\ List.length v <> 2%nat)
  end.
Proof.
  destruct kb as [b|]; [|reflexivity]. unfold get_keyboard_repeat.
  destruct (key_repeat_rate b) as [|[v|]].
  - split.
    + intros x y. split; discriminate.
    + split; [intros _; left; reflexivity|]. intros _. discriminate.
  - destruct v as [|a [|c [|d v]]]; cbn.
    + split.
      * intros x y. split; [discriminate|]. intros H. inversion H.
      * split; [congruence|]. intros [H|[v [H [H1 _]]]]; [discriminate|]. inversion H; congruence.
    + split.
      * intros x y. split; [discriminate|]. intros H. inversion H.
      * split; [intros _; right; exists [a]; repeat split; discriminate|]. intros _. discriminate.
    + split.
      * intros x y. split; intros H; inversion H; reflexivity.
      * split; [congruence|]. intros [H|[v [H [_ H2]]]]; [discriminate|].
        inversion H; subst. simpl in H2. congruence.
    + split.
      * intros x y. split; [discriminate|]. intros H. inversion H.
      * split; [intros _; right; eexists; repeat split; [discriminate|simpl; lia]|].
        intros _. discriminate.
  - split.
    + intros x y. split; [discriminate|]. intros H. inversion H.
    + split; [intros H; exfalso; apply H; reflexivity|]. intros [H|[v [H _]]]; discriminate.
Qed.

Lemma strip_prefix_app (p rest : string) : strip_prefix p (p ++ rest) = Some rest.
Proof. induction p as [|c p IH]; simpl; [reflexivity|]. rewrite Ascii.eqb_refl. exact IH. Qed.

Lemma split_go_sep_last (c : ascii) (p : string) (fuel : nat) (acc : list ascii) (x : string) :
  has_char c x = false -> (String.length x < fuel)%nat ->
  split_go fuel (String c p) None acc x = [(string_of_list_ascii (rev acc) ++ x)%string].
Proof.
  revert fuel acc. induction x as [|d x IH]; intros fuel acc Hc Hf;
    (destruct fuel as [|fuel]; [simpl in Hf; lia|]).
  - cbn [split_go strip_prefix]. rewrite string_app_nil_r. reflexivity.
  - unfold has_char in Hc. cbn [list_ascii_of_string existsb] in Hc.
    apply orb_false_iff in Hc as [Hcd Hc].
    cbn [split_go strip_prefix]. rewrite Hcd.
    rewrite IH by (exact Hc || (simpl in Hf; lia)).
    cbn [rev]. rewrite string_of_list_ascii_app, string_app_assoc. reflexivity.
Qed.

Lemma split_go_sep (c : ascii) (p : string) (fuel : nat) (acc : list ascii) (x rest : string) :
  has_char c x = false -> (String.length x < fuel)%nat ->
  split_go fuel (String c p) None acc (x ++ String c (p ++ rest))
  = (string_of_list_ascii (rev acc) ++ x)%string
    :: split_go (fuel - S (String.length x)) (String c p) None [] rest.
Proof.
  revert fuel acc. induction x as [|d x IH]; intros fuel acc Hc Hf;
    (destruct fuel as [|fuel]; [simpl in Hf; lia|]).
  - cbn [split_go strip_prefix String.append]. rewrite Ascii.eqb_refl, strip_prefix_app, string_app_nil_r.
    simpl String.length. replace (S fuel - 1)%nat with fuel by lia. reflexivity.
  - unfold has_char in Hc. cbn [list_ascii_of_string existsb] in Hc.
    apply orb_false_iff in Hc as [Hcd Hc].
    cbn [split_go strip_prefix String.append]. rewrite Hcd.
    rewrite IH by (exact Hc || (simpl in Hf; lia)).
    cbn [rev String.length]. rewrite string_of_list_ascii_app, string_app_assoc. reflexivity.
Qed.

Lemma splitlines_go_last (acc l : list ascii) :
  forallb (fun c => negb (is_linebreak c)) l = true -> (acc ++ l) <> [] ->
  splitlines_go acc l = [string_of_list_ascii (rev acc ++ l)].
Proof.
  revert acc. induction l as [|c l IH]; intros acc Hl Hne.
  - destruct acc; [simpl in Hne; congruence|]. cbn [splitlines_go]. rewrite app_nil_r. reflexivity.
  - cbn [forallb] in Hl. apply andb_true_iff in Hl as [Hc Hl]. apply negb_true_iff in Hc.
    cbn [splitlines_go]. rewrite Hc, IH by (exact Hl || (simpl; congruence)).
    cbn [rev]. rewrite <- app_assoc. reflexivity.
Qed.

Lemma splitlines_go_nl (acc l rest : list ascii) :
  forallb (fun c => negb (is_linebreak c)) l = true ->
  splitlines_go acc (l ++ "010"%char :: rest)
  = string_of_list_ascii (rev acc ++ l) :: splitlines_go [] rest.
Proof.
  revert acc. induction l as [|c l IH]; intros acc Hl.
  - cbn [app splitlines_go]. rewrite app_nil_r.
    change (is_linebreak "010") with true. cbv iota.
    destruct rest as [|d rest]; reflexivity.
  - cbn [forallb] in Hl. apply andb_true_iff in Hl as [Hc Hl]. apply negb_true_iff in Hc.
    cbn [app splitlines_go]. rewrite Hc, IH by exact Hl.
    cbn [rev]. rewrite <- app_assoc. reflexivity.
Qed.

Lemma string_of_list_ascii_of_string (s : string) : string_of_list_ascii (list_ascii_of_string s) = s.
Proof. induction s as [|c s IH]; simpl; [reflexivity|]. rewrite IH. reflexivity. Qed.

(** [s.splitlines()] of lines joined by ["\n"]. *)
Lemma splitlines_join (lines : list string) :
  lines <> [] -> Forall (fun l => no_linebreak l = true /\ l <> EmptyString) lines ->
  splitlines (py_join (String "010" EmptyString) lines) = lines.
Proof.
  unfold splitlines. induction lines as [|l lines IH]; intros Hne Hl; [congruence|].
  inversion Hl as [|? ? [Hl1 Hl2] Hl']; subst.
  destruct lines as [|l' lines].
  - cbn [py_join]. rewrite splitlines_go_last by (exact Hl1 || (destruct l; simpl; congruence)).
    cbn [rev app]. rewrite string_of_list_ascii_of_string. reflexivity.
  - rewrite py_join_cons by discriminate. rewrite list_ascii_of_string_app.
    cbn [list_ascii_of_string String.append].
    rewrite splitlines_go_nl by exact Hl1. rewrite IH by (discriminate || exact Hl').
    cbn [rev app]. rewrite string_of_list_ascii_of_string. reflexivity.
Qed.

Lemma lstrip_localectl_line (pad : nat) (k v : string) :
  startswith " " k = false ->
  lstrip_spaces (localectl_line (pad, k, v)) = (k ++ ": " ++ v)%string.
Proof.
  intros Hk. unfold lstrip_spaces, localectl_line.
  rewrite list_ascii_of_string_app.
  assert (E : forall n l, drop_while (fun c => Ascii.eqb c " ") (list_ascii_of_string (repeat_char " " n) ++ l)
                          = drop_while (fun c => Ascii.eqb c " ") l)
    by (induction n as [|n IH]; intros l; [reflexivity|exact (IH l)]).
  rewrite E. destruct k as [|c k].
  - cbn [String.append list_ascii_of_string drop_while]. change (Ascii.eqb ":" " ") with false.
    cbv iota. cbn [string_of_list_ascii]. rewrite string_of_list_ascii_of_string. reflexivity.
  - cbn [list_ascii_of_string String.append drop_while].
    unfold startswith in Hk. cbn [String.prefix] in Hk.
    destruct (Ascii.eqb c " ") eqn:Ec.
    + apply Ascii.eqb_eq in Ec. subst. simpl in Hk. destruct k; discriminate.
    + cbn [string_of_list_ascii]. rewrite string_of_list_ascii_of_string.
      reflexivity.
Qed.

Lemma assoc_get_app {V} (k : string) (d1 d2 : list (string * V)) :
  assoc_get k (d1 ++ d2) = match assoc_get k d1 with Some v => Some v | None => assoc_get k d2 end.
Proof.
  induction d1 as [|[k' v'] d1 IH]; simpl; [reflexivity|].
  destruct (String.eqb k k'); [reflexivity|exact IH].
Qed.

Lemma locale_loop_entries (entries : list (nat * string * string)) (locale : list (string * string)) :
  (forall e, In e entries -> assoc_get (snd (fst e)) locale = None) ->
  NoDup (map (fun e => snd (fst e)) entries) ->
  Forall (fun e => let '(_, k, v) := e in
            has_char ":" k = false /\ has_char ":" v = false /\ startswith " " k = false) entries ->
  locale_loop (map localectl_line entries) locale
  = inr (locale ++ map (fun e => let '(_, k, v) := e in (k, v)) entries).
Proof.
  revert locale. induction entries as [|[[pad k] v] entries IH]; intros locale Hfresh Hnd Hf.
  - cbn. rewrite app_nil_r. reflexivity.
  - inversion Hf as [|? ? Hx Hf']; subst. simpl in Hx. destruct Hx as [Hk [Hv Hs]]. inversion Hnd as [|? ? Hnin Hnd']; subst.
    cbn [map locale_loop]. rewrite lstrip_localectl_line by exact Hs.
    unfold py_split. cbn [rbind].
    change (": " ++ v)%string with (String ":" (" " ++ v)).
    rewrite split_go_sep by (exact Hk || (rewrite !string_length_app; simpl; lia)).
    rewrite split_go_sep_last; [|exact Hv|rewrite !string_length_app; simpl; lia].
    cbn [rev string_of_list_ascii String.append].
    rewrite (assoc_set_new k v locale) by exact (Hfresh _ (or_introl eq_refl)).
    rewrite IH.
    + rewrite <- app_assoc. reflexivity.
    + intros e He. rewrite assoc_get_app, (Hfresh e (or_intror He)). cbn [assoc_get].
      destruct (String.eqb_spec (snd (fst e)) k) as [E|_]; [|reflexivity].
      exfalso. apply Hnin. rewrite <- E. exact (in_map (fun e => snd (fst e)) _ _ He).
    + exact Hnd'.
    + exact Hf'.
Qed.

(** [get_locale_status] reads back the lines ["<pad>key: value"] of
    [localectl status] as the dict of their keys and values, for distinct
    keys not starting with a space and keys and values without [":"] or
    line breaks. *)
Theorem get_locale_status_localectl (entries : list (nat * string * string)) :
  entries <> [] ->
  NoDup (map (fun e => snd (fst e)) entries) ->
  Forall (fun e => let '(_, k, v) := e in
            has_char ":" k = false /\ has_char ":" v = false /\ startswith " " k = false
            /\ no_linebreak k = true /\ no_linebreak v = true) entries ->
  get_locale_status (py_join (String "010" EmptyString) (map localectl_line entries))
  = inr (map (fun e => let '(_, k, v) := e in (k, v)) entries).
Proof.
  intros Hne Hnd Hf.
  assert (Hlines : Forall (fun l => no_linebreak l = true /\ l <> EmptyString) (map localectl_line entries)).
  { apply Forall_map. eapply Forall_impl; [|exact Hf]. intros [[pad k] v] (_ & _ & _ & Hk & Hv).
    unfold localectl_line, no_linebreak in *. rewrite !list_ascii_of_string_app, !forallb_app, Hk, Hv.
    split.
    - rewrite andb_true_r. cbn. clear. induction pad as [|pad IH]; [reflexivity|exact IH].
    - destruct pad; [destruct k|]; discriminate. }
  unfold get_locale_status.
  destruct entries as [|e entries]; [congruence|].
  destruct (String.eqb_spec (py_join (String "010" EmptyString) (map localectl_line (e :: entries))) "")
    as [E|_].
  - exfalso. inversion Hlines as [|? ? [_ Hl] Hl']; subst.
    cbn [map] in E. destruct entries as [|e' entries]; [exact (Hl E)|].
    rewrite py_join_cons in E by discriminate.
    destruct (localectl_line e); [congruence|discriminate].
  - rewrite splitlines_join by (discriminate || exact Hlines).
    apply locale_loop_entries; [intros; reflexivity|exact Hnd|].
    eapply Forall_impl; [|exact Hf]. intros [[pad k] v] (? & ? & ? & _ & _). tauto.
Qed.



(** ** [xpra/gtk/window.py] *)

Lemma testbit_byte_high (c i : Z) : 0 <= c < 256 -> 8 <= i -> Z.testbit c i = false.
Proof.
  intros Hc Hi. destruct (Z.eq_dec c 0) as [->|Hc0]; [apply Z.testbit_0_l|].
  apply Z.bits_above_log2; [lia|].
  assert (Z.log2 c < 8) by (apply (Z.log2_lt_pow2 c 8); lia). lia.
Qed.

(** The attributes mask of [new_GDKWindow] has the bit of the title, x,
    y and visual exactly when that attribute is set, always the bit of
    override-redirect, and no other bit; an empty title is not set. *)
Theorem new_GDKWindow_mask {P V : Type} (parent : P) (width height : Z)
    (wt : option window_type) (event_mask : Z) (wclass : option window_class)
    (title : option string) (x y : option Z) (override_redirect : bool) (visual : option V) :
  let '(p, attrs, mask) :=
    new_GDKWindow parent width height wt event_mask wclass title x y override_redirect visual in
  p = parent
  /\ (forall i, Z.testbit mask i
                = ((i =? 1) && is_some (attr_title attrs)) || ((i =? 2) && is_some (attr_x attrs))
                  || ((i =? 3) && is_some (attr_y attrs)) || ((i =? 5) && is_some (attr_visual attrs))
                  || (i =? 7))
  /\ (forall t, attr_title attrs = Some t <-> title = Some t /\ t <> EmptyString)
  /\ attr_x attrs = x /\ attr_y attrs = y /\ attr_visual attrs = visual.
Proof.
  unfold new_GDKWindow.
  destruct title as [t|]; [destruct (String.eqb_spec t "") as [Et|Et]|];
    destruct x, y, visual; cbn;
    (split; [reflexivity|]);
    (split; [intros i; destruct (Z.lt_ge_cases i 0) as [Hi|Hi];
       [rewrite Z.testbit_neg_r by exact Hi; destruct i; [lia|lia|reflexivity]
       |destruct (Z.lt_ge_cases i 8) as [Hi8|Hi8];
        [assert (i = 0 \/ i = 1 \/ i = 2 \/ i = 3 \/ i = 4 \/ i = 5 \/ i = 6 \/ i = 7) as Hc by lia;
         repeat destruct Hc as [->|Hc]; [..|subst]; reflexivity
        |rewrite testbit_byte_high by lia;
         rewrite (proj2 (Z.eqb_neq i 1)), (proj2 (Z.eqb_neq i 2)), (proj2 (Z.eqb_neq i 3)),
           (proj2 (Z.eqb_neq i 5)), (proj2 (Z.eqb_neq i 7)) by lia; reflexivity]]|]);
    (split; [intros t'; split; [intros Ht; inversion Ht; subst; split; congruence
                               |intros [Ht Hne]; inversion Ht; subst; congruence]|]);
    repeat split.
Qed.

(** [set_visual] never raises; it logs a warning iff an alpha visual is
    missing or the screen is not composited (outside win32), and then
    returns [None] and leaves the window visual unchanged; otherwise it
    returns the requested visual and sets it on the window if any. *)
Theorem set_visual_outcome {V : Type} (WIN32 : bool) (scr : screen V) (seen : list string)
    (win_visual : option V) (alpha : bool) :
  let requested := if alpha then rgba_visual scr else system_visual scr in
  exists visual win_visual' seen' lg,
    set_visual WIN32 scr seen win_visual alpha = inr (visual, win_visual', seen', lg)
    /\ (lg <> [] <-> (alpha = true /\ requested = None)
                     \/ (WIN32 = false /\ is_composited scr = false))
    /\ (lg = [] -> visual = requested
                   /\ win_visual' = match requested with Some v => Some v | None => win_visual end)
    /\ (lg <> [] -> visual = None /\ win_visual' = win_visual).
Proof.
  unfold set_visual. cbv zeta.
  destruct WIN32; [|destruct (first_time "no-rgba"%string seen) as [ft seen1]];
    destruct alpha, (rgba_visual scr), (system_visual scr), (is_composited scr); cbn;
    (eexists _, _, _, _; split; [reflexivity|]);
    intuition (try discriminate; try congruence).
Qed.

Lemma set_visual_marks_seen {V : Type} (scr : screen V) (seen : list string)
    (win_visual : option V) (alpha : bool) :
  match set_visual false scr seen win_visual alpha with
  | inr (_, _, seen', _) => string_in "no-rgba"%string seen' = true
  | inl _ => False
  end.
Proof.
  pose proof (first_time_seen "no-rgba"%string seen) as H.
  unfold set_visual. cbv zeta. destruct (first_time "no-rgba"%string seen) as [ft seen1]. cbn [snd] in H.
  destruct alpha, (rgba_visual scr), (system_visual scr), (is_composited scr); exact H.
Qed.

Lemma set_visual_debug_only {V : Type} (WIN32 : bool) (scr : screen V) (seen : list string)
    (win_visual : option V) (alpha : bool) :
  (WIN32 = true \/ string_in "no-rgba"%string seen = true) ->
  match set_visual WIN32 scr seen win_visual alpha with
  | inr (_, _, _, lg) => Forall (fun e => fst e = LDebug) lg
  | inl _ => False
  end.
Proof.
  intros H. unfold set_visual. cbv zeta.
  assert (Hl : fst (if WIN32 then (LDebug, seen)
                    else let '(ft, seen') := first_time "no-rgba"%string seen in
                         (if ft then LWarn else LDebug, seen')) = LDebug).
  { destruct WIN32; [reflexivity|]. destruct H as [H|H]; [discriminate|].
    unfold first_time. rewrite H. reflexivity. }
  destruct (if WIN32 then _ else _) as [l seen1]. cbn [fst] in Hl. subst l.
  destruct alpha, (rgba_visual scr), (system_visual scr), (is_composited scr), WIN32; cbn;
    repeat constructor.
Qed.

(** Outside win32, once [set_visual] has run (whether it succeeded or
    not), any later call logs only at debug level. *)
Theorem set_visual_warns_once {V : Type} (scr1 scr2 : screen V) (seen : list string)
    (w1 w2 : option V) (a1 a2 : bool) :
  match set_visual false scr1 seen w1 a1 with
  | inr (_, _, seen1, _) =>
      match set_visual false scr2 seen1 w2 a2 with
      | inr (_, _, _, lg2) => Forall (fun e => fst e = LDebug) lg2
      | inl _ => False
      end
  | inl _ => False
  end.
Proof.
  pose proof (set_visual_marks_seen scr1 seen w1 a1) as H.
  destruct (set_visual false scr1 seen w1 a1) as [e|[[[v1 wv1] seen1] lg1]]; [contradiction|].
  apply set_visual_debug_only. right. exact H.
Qed.

(** * Instances of the properties with hypotheses *)

Lemma from0to100_str_witness :
  Z.abs 42 < 10 ^ 4300 /\ from0to100 (AStr (str_of_Z 42)) = inr 42.
Proof.
  assert (H : Z.abs 42 < 10 ^ 4300) by (vm_compute; reflexivity).
  split; [exact H|]. exact (from0to100_str 42 H).
Defined.

Lemma parse_scaling_value_str_witness :
  (Z.abs 2 < 10 ^ 4300 /\ Z.abs 3 < 10 ^ 4300)
  /\ parse_scaling_value (str_of_Z 3) = inr (Some (1, 3))
  /\ parse_scaling_value (str_of_Z 2 ++ ":" ++ str_of_Z 3) = inr (Some (2, 3)).
Proof.
  assert (H2 : Z.abs 2 < 10 ^ 4300) by (vm_compute; reflexivity).
  assert (H3 : Z.abs 3 < 10 ^ 4300) by (vm_compute; reflexivity).
  split; [split; assumption|]. exact (parse_scaling_value_str 2 3 H2 H3).
Defined.

Lemma scale_values_partition_witness :
  exists opts,
    SCALING_OPTIONS_of default_scaling_options = inr opts
    /\ r4cmp (PInt 1) (PInt 10) = inr 10
    /\ exists down mid up,
         scaledown_value opts (PInt 1) = inr down
         /\ scaleup_value opts (PInt 1) = inr up
         /\ opts = down ++ mid ++ up
         /\ (List.length mid <= 1)%nat
         /\ Forall (fun v => exists a, r4cmp v (PInt 10) = inr a /\ a < 10) down
         /\ Forall (fun v => r4cmp v (PInt 10) = inr 10) mid
         /\ Forall (fun v => exists a, r4cmp v (PInt 10) = inr a /\ 10 < a) up.
Proof.
  destruct (SCALING_OPTIONS_of default_scaling_options) as [e|opts] eqn:E;
    [vm_compute in E; discriminate|].
  assert (R : r4cmp (PInt 1) (PInt 10) = inr 10) by (vm_compute; reflexivity).
  exists opts. split; [reflexivity|]. split; [exact R|].
  exact (scale_values_partition opts (PInt 1) 10 E R).
Defined.


Lemma parse_scaling_auto_custom_witness :
  py_split "," None "3840x2160:2,1920x1080:1" = inr ["3840x2160:2"; "1920x1080:1"]%string
  /\ exists lg,
       run (parse_scaling ("auto:" ++ "3840x2160:2,1920x1080:1") 1920 1080 MIN_SCALING MAX_SCALING)
       = (inr (match_limits 1920 1080 (good_limits ["3840x2160:2"; "1920x1080:1"]%string)), lg)
       /\ List.length lg = (3 * bad_limits ["3840x2160:2"; "1920x1080:1"]%string)%nat.
Proof.
  assert (H : py_split "," None "3840x2160:2,1920x1080:1" = inr ["3840x2160:2"; "1920x1080:1"]%string)
    by (vm_compute; reflexivity).
  split; [exact H|]. exact (parse_scaling_auto_custom _ 1920 1080 MIN_SCALING MAX_SCALING _ H).
Defined.

Lemma parse_simple_dict_join_witness :
  Ascii.eqb "," "=" = false
  /\ NoDup (map fst [("a", "1"); ("b", "x=y")]%string)
  /\ run (parse_simple_dict (py_join "," (map kv_entry [("a", "1"); ("b", "x=y")]%string)) ",")
     = (inr [("a", DStr "1"); ("b", DStr "x=y")]%string, []).
Proof.
  assert (H1 : Ascii.eqb "," "=" = false) by reflexivity.
  assert (H2 : NoDup (map fst [("a", "1"); ("b", "x=y")]%string))
    by (cbn; repeat constructor; simpl; intuition discriminate).
  split; [exact H1|]. split; [exact H2|].
  exact (parse_simple_dict_join "," [("a", "1"); ("b", "x=y")]%string H1 H2
           ltac:(repeat constructor)).
Defined.

Lemma input_source_entry_layout_witness :
  input_source_entry (fun _ => EmptyString)
    (JObj [("id", JStr "gb+intl"); ("index", JInt 1)]%string) = Some ("gb"%string, 1).
Proof.
  exact (input_source_entry_layout (fun _ => EmptyString)
           (JObj [("id", JStr "gb+intl"); ("index", JInt 1)]%string) 1 "gb" "+intl"
           eq_refl (or_intror (ex_intro _ "intl"%string eq_refl)) eq_refl eq_refl).
Defined.

Lemma get_locale_status_localectl_witness :
  get_locale_status
    (py_join (String "010" EmptyString)
       (map localectl_line [(3%nat, "System Locale", "LANG=en_GB.UTF-8");
                            (7%nat, "VC Keymap", "gb"); (6%nat, "X11 Layout", "gb")]%string))
  = inr [("System Locale", "LANG=en_GB.UTF-8"); ("VC Keymap", "gb"); ("X11 Layout", "gb")]%string.
Proof.
  apply get_locale_status_localectl.
  - discriminate.
  - cbn. repeat constructor; simpl; intuition discriminate.
  - repeat constructor.
Defined.

